(** * On-device detection post-processing of the K230D deployment script

    A shallow embedding of the [YOLOv8Detector] class that
    [k230dev-yolo/workspace/deploy_canmv.py] generates: the decoder loop of
    [postprocess], the coordinate clamp, [iou], [nms], [update_fps] and the
    memory-management test at the end of every iteration of [run].

    Python floats are modelled by rationals ([Q]): every comparison the code
    makes on floats ([<], [==], [max], the sort key) has the same outcome on
    the rationals they denote.  Pixel quantities are Python ints ([Z]).
    A Python exception is the [None] of the [exc] monad; a float that
    overflows shows where the code turns it into an exception, in [int()]. *)

From Stdlib Require Import ZArith QArith Qround Qabs List Lia Lqa Bool.
From Stdlib Require String.
From Stdlib Require Import Sorting.Permutation Sorting.Sorted.
From Equations Require Import Equations.
Import ListNotations.

Local Open Scope Z_scope.

(** ** A small exception monad *)

Module Exc.

Definition exc (A : Type) : Type := option A.

Definition ret {A} (a : A) : exc A := Some a.

Definition raise {A} : exc A := None.

Definition bind {A B} (m : exc A) (k : A -> exc B) : exc B :=
  match m with
  | Some a => k a
  | None => None
  end.

End Exc.
Import Exc.

Notation "x <- m ;; k" := (bind m (fun x => k))
  (at level 61, m at next level, right associativity).

(** ** Floats as rationals *)

Module PyFloat.

(** [a < b] on floats. *)
Definition ltb (a b : Q) : bool := negb (Qle_bool b a).

(** [a == b] on floats. *)
Definition eqb (a b : Q) : bool := Qeq_bool a b.

(** [int(q)]: truncation towards zero. *)
Definition to_int (q : Q) : Z := Z.quot (Qnum q) (Zpos (Qden q)).

(** [a / b] on ints: true division, [ZeroDivisionError] on a zero divisor. *)
Definition truediv (a b : Z) : exc Q :=
  if b =? 0 then raise else ret (inject_Z a / inject_Z b)%Q.

End PyFloat.

(** ** Detections: the tuples [(x, y, w, h, conf, cls)] *)

Record Detection : Type := mkDet
  { det_x : Z;
    det_y : Z;
    det_w : Z;
    det_h : Z;
    det_conf : Q;
    det_cls : nat }.

(** ** [iou] *)

Definition inter_area (box1 box2 : Detection) : Z :=
  let '(x1_1, y1_1, w1, h1) := (det_x box1, det_y box1, det_w box1, det_h box1) in
  let '(x1_2, y1_2, w2, h2) := (det_x box2, det_y box2, det_w box2, det_h box2) in
  let '(x2_1, y2_1) := (x1_1 + w1, y1_1 + h1) in
  let '(x2_2, y2_2) := (x1_2 + w2, y1_2 + h2) in
  let xi1 := Z.max x1_1 x1_2 in
  let yi1 := Z.max y1_1 y1_2 in
  let xi2 := Z.min x2_1 x2_2 in
  let yi2 := Z.min y2_1 y2_2 in
  Z.max 0 (xi2 - xi1) * Z.max 0 (yi2 - yi1).

Definition box_area (box : Detection) : Z := det_w box * det_h box.

Definition union_area (box1 box2 : Detection) : Z :=
  box_area box1 + box_area box2 - inter_area box1 box2.

Definition iou (box1 box2 : Detection) : exc Q :=
  if 0 <? union_area box1 box2
  then PyFloat.truediv (inter_area box1 box2) (union_area box1 box2)
  else ret 0%Q.

(** ** [nms] *)

(** [detections.sort(key=lambda x: x[4], reverse=True)]: Python's sort is
    stable, also under [reverse=True]; an element moves behind another one
    only when its confidence is strictly smaller. *)
Fixpoint insert_desc (d : Detection) (l : list Detection) : list Detection :=
  match l with
  | [] => [d]
  | e :: l' =>
      if PyFloat.ltb (det_conf d) (det_conf e)
      then e :: insert_desc d l'
      else d :: l
  end.

Definition sort_by_conf (detections : list Detection) : list Detection :=
  fold_right insert_desc [] detections.

(** The condition of the list comprehension:
    [self.iou(best, det) < iou_threshold or best[5] != det[5]]. *)
Definition retained (iou_threshold : Q) (best det : Detection) : exc bool :=
  q <- iou best det ;;
  ret (PyFloat.ltb q iou_threshold || negb (det_cls best =? det_cls det)%nat).

(** A list comprehension [[a for a in l if p a]] whose condition may raise. *)
Fixpoint filter_exc {A} (p : A -> exc bool) (l : list A) : exc (list A) :=
  match l with
  | [] => ret []
  | a :: l' =>
      b <- p a ;;
      r <- filter_exc p l' ;;
      ret (if b then a :: r else r)
  end.

(** Match on a value and remember which one it was. *)
Definition inspect {A} (x : A) : {y : A | x = y} := exist _ x eq_refl.

(** The [while len(detections) > 0] loop; [keep] is the list built so far. *)
Equations? nms_loop (iou_threshold : Q) (keep detections : list Detection)
  : exc (list Detection) by wf (length detections) lt :=
  nms_loop iou_threshold keep [] := ret keep;
  nms_loop iou_threshold keep (best :: rest)
    with inspect (filter_exc (retained iou_threshold best) rest) := {
    | exist _ (Some rest') _ := nms_loop iou_threshold (keep ++ [best]) rest';
    | exist _ None _ := raise }.
Proof.
  clear nms_loop.
  apply Nat.lt_succ_r.
  revert rest' e.
  induction rest as [|a rest IH]; intros rest' e; simpl in e.
  - injection e as <-. apply Nat.le_refl.
  - destruct (retained iou_threshold best a) as [b|]; [|discriminate].
    destruct (filter_exc (retained iou_threshold best) rest) as [r|];
      [|discriminate].
    simpl in e. injection e as <-.
    specialize (IH r eq_refl).
    destruct b; simpl; lia.
Qed.

Definition nms (detections : list Detection) (iou_threshold : Q)
  : exc (list Detection) :=
  if (length detections =? 0)%nat then ret []
  else nms_loop iou_threshold [] (sort_by_conf detections).

(** ** The decoder: the [for pred in predictions] loop of [postprocess] *)

(** A row of the raw output tensor, [[x_center, y_center, width, height,
    score_0, ...]], as the Python sequence it is. *)
Definition RawPrediction : Type := list Q.

(** [max(class_scores)]: the first of the largest items; [ValueError] on an
    empty sequence. *)
Definition py_max (l : list Q) : exc Q :=
  match l with
  | [] => raise
  | x :: xs => ret (fold_left (fun m y => if PyFloat.ltb m y then y else m) xs x)
  end.

(** [l.index(v)]: the first position holding a value equal to [v];
    [ValueError] when there is none. *)
Fixpoint index (v : Q) (l : list Q) : exc nat :=
  match l with
  | [] => raise
  | x :: xs => if PyFloat.eqb x v then ret 0%nat else i <- index v xs ;; ret (S i)
  end.

(** [a, b, c, d = l]: [ValueError] unless [l] has exactly four items. *)
Definition unpack4 (l : list Q) : exc (Q * Q * Q * Q) :=
  match l with
  | [a; b; c; d] => ret (a, b, c, d)
  | _ => raise
  end.

(** Lines "Convert to corner coordinates".  The arithmetic is the exact one
    on rationals; float rounding can move a corner, but neither it nor
    [int()] changes the order of two corners, which is all the clamp needs. *)
Definition corner_coords (img_width img_height : Z) (x_center y_center width height : Q)
  : Z * Z * Z * Z :=
  let x1 := PyFloat.to_int ((x_center - width / 2) * inject_Z img_width)%Q in
  let y1 := PyFloat.to_int ((y_center - height / 2) * inject_Z img_height)%Q in
  let x2 := PyFloat.to_int ((x_center + width / 2) * inject_Z img_width)%Q in
  let y2 := PyFloat.to_int ((y_center + height / 2) * inject_Z img_height)%Q in
  (x1, y1, x2, y2).

(** Lines "Clamp to image bounds", and the box [(x1, y1, x2-x1, y2-y1)] that
    is appended. *)
Definition clamp_box (img_width img_height : Z) (c : Z * Z * Z * Z)
  : Z * Z * Z * Z :=
  let '(x1, y1, x2, y2) := c in
  let x1 := Z.max 0 (Z.min x1 img_width) in
  let y1 := Z.max 0 (Z.min y1 img_height) in
  let x2 := Z.max 0 (Z.min x2 img_width) in
  let y2 := Z.max 0 (Z.min y2 img_height) in
  (x1, y1, x2 - x1, y2 - y1).

Definition pixel_box (img_width img_height : Z) (x_center y_center width height : Q)
  : Z * Z * Z * Z :=
  clamp_box img_width img_height
    (corner_coords img_width img_height x_center y_center width height).

(** The least magnitude that float arithmetic turns into [inf]: the largest
    float is [2^1024 - 2^971], and what lies half a step above it, or
    further, is rounded to [inf].  The test is made on the exact value of
    the operation. *)
Definition FLOAT_LIMIT : Q := inject_Z (2 ^ 1024 - 2 ^ 970).

Definition overflows (q : Q) : bool := Qle_bool FLOAT_LIMIT (Qabs q).

(** [int(a * dim)] for a float [a] and an int [dim].  The int is converted
    to a float, which raises [OverflowError] when it is too large; [int()]
    raises [OverflowError] on [inf] and [ValueError] on [nan], which is what
    the product is when [a] or the product itself is out of range. *)
Definition int_of_scaled (a : Q) (dim : Z) : exc Z :=
  if overflows a || overflows (inject_Z dim) || overflows (a * inject_Z dim)
  then raise
  else ret (PyFloat.to_int (a * inject_Z dim)).

(** Lines "Convert to corner coordinates" with their exceptions, in the
    order of the four assignments; what they give, when they raise nothing,
    is [corner_coords]. *)
Definition corner_ints (img_width img_height : Z)
    (x_center y_center width height : Q) : exc (Z * Z * Z * Z) :=
  x1 <- int_of_scaled (x_center - width / 2) img_width ;;
  y1 <- int_of_scaled (y_center - height / 2) img_height ;;
  x2 <- int_of_scaled (x_center + width / 2) img_width ;;
  y2 <- int_of_scaled (y_center + height / 2) img_height ;;
  ret (x1, y1, x2, y2).

(** One iteration of the loop body: [None] is an exception, [Some None] the
    [continue], [Some (Some d)] the [detections.append(d)]. *)
Definition decode_pred (img_width img_height : Z) (conf_thresh : Q)
    (pred : RawPrediction) : exc (option Detection) :=
  box <- unpack4 (firstn 4 pred) ;;
  let '(x_center, y_center, width, height) := box in
  let class_scores := skipn 4 pred in
  max_conf <- py_max class_scores ;;
  if PyFloat.ltb max_conf conf_thresh then ret None
  else
    class_id <- index max_conf class_scores ;;
    corners <- corner_ints img_width img_height x_center y_center width height ;;
    let '(x, y, w, h) := clamp_box img_width img_height corners in
    ret (Some (mkDet x y w h max_conf class_id)).

(** The loop inside [try]: an exception leaves the loop with the detections
    appended so far; the flag tells whether the [except] branch ran. *)
Fixpoint decode_loop (img_width img_height : Z) (conf_thresh : Q)
    (predictions : list RawPrediction) (detections : list Detection)
  : list Detection * bool :=
  match predictions with
  | [] => (detections, false)
  | pred :: rest =>
      match decode_pred img_width img_height conf_thresh pred with
      | None => (detections, true)
      | Some None => decode_loop img_width img_height conf_thresh rest detections
      | Some (Some d) =>
          decode_loop img_width img_height conf_thresh rest (detections ++ [d])
      end
  end.

(** The [try ... except] block: [predictions = outputs[0]] raises on an empty
    [outputs], which is caught as well. *)
Definition decode (img_width img_height : Z) (conf_thresh : Q)
    (outputs : list (list RawPrediction)) : list Detection :=
  match outputs with
  | [] => []
  | predictions :: _ =>
      fst (decode_loop img_width img_height conf_thresh predictions [])
  end.

Definition postprocess (img_width img_height : Z)
    (outputs : list (list RawPrediction)) (conf_thresh iou_thresh : Q)
  : exc (list Detection) :=
  nms (decode img_width img_height conf_thresh outputs) iou_thresh.

(** ** [update_fps] and the loop of [run] *)

Module Ticks.

(** Modelled from the spec: [time.ticks_ms] and [time.ticks_diff] belong to
    MicroPython, not to the repository.  The clock is a millisecond counter
    that wraps at [TICKS_PERIOD]; the difference is the modular one, right
    across a single wrap-around. *)
Definition TICKS_PERIOD : Z := 2 ^ 30.

Definition ticks_diff (t1 t2 : Z) : Z :=
  (t1 - t2 + TICKS_PERIOD / 2) mod TICKS_PERIOD - TICKS_PERIOD / 2.

End Ticks.

(** The three attributes [update_fps] works on. *)
Record Tracker : Type := mkTracker
  { frame_count : Z;
    fps : Z;
    last_time : Z }.

(** The state [__init__] leaves, the clock reading [now]. *)
Definition init_tracker (now : Z) : Tracker := mkTracker 0 0 now.

(** [update_fps], with [current_time] the value [time.ticks_ms()] returns. *)
Definition update_fps (self : Tracker) (current_time : Z) : Tracker :=
  let frame_count := frame_count self + 1 in
  if 1000 <=? Ticks.ticks_diff current_time (last_time self)
  then mkTracker 0 frame_count current_time
  else mkTracker frame_count (fps self) (last_time self).

(** What one iteration of [while True] meets. *)
Inductive Step : Type :=
| CaptureNone                (* [camera.capture()] returned [None] *)
| Frame (current_time : Z)   (* a frame reached [update_fps] at this clock reading *)
| InferenceError             (* [self.kpu.run] raised *)
| KeyboardInterrupt.

(** What the loop does that is visible from outside. *)
Inductive Event : Type :=
| Display
| GcCollect
| CameraDeinit.

(** The loop of [run] over a finite prefix of an execution. An exception
    leaves the loop through [finally]. *)
Fixpoint run (self : Tracker) (steps : list Step) : Tracker * list Event :=
  match steps with
  | [] => (self, [])
  | CaptureNone :: rest => run self rest
  | Frame current_time :: rest =>
      let self := update_fps self current_time in
      let '(final, evs) := run self rest in
      (final,
       Display :: (if frame_count self mod 10 =? 0 then [GcCollect] else []) ++ evs)
  | InferenceError :: _ => (self, [CameraDeinit; GcCollect])
  | KeyboardInterrupt :: _ => (self, [CameraDeinit; GcCollect])
  end.

(** ** Vocabulary of the statements *)

(** What the filter of [nms] computes on a pair, as a boolean: [det] stays
    after [best] was kept. *)
Definition passes (iou_threshold : Q) (best det : Detection) : bool :=
  match retained iou_threshold best det with
  | Some b => b
  | None => false
  end.

(** [b] does not come before [a] in descending order of confidence. *)
Definition conf_ge (a b : Detection) : Prop := (det_conf b <= det_conf a)%Q.

(** [best] suppresses [det]: same class, and an IoU at or above the
    threshold. *)
Definition suppresses (iou_threshold : Q) (best det : Detection) : Prop :=
  det_cls best = det_cls det /\
  exists q, iou best det = ret q /\ (iou_threshold <= q)%Q.

(** [a] and [b] may both survive: they are of different classes, or their
    IoU, taken either way round, is below the threshold. *)
Definition compatible (iou_threshold : Q) (a b : Detection) : Prop :=
  det_cls a = det_cls b ->
  exists q, iou a b = ret q /\ iou b a = ret q /\ (q < iou_threshold)%Q.

(** What one run of the loop guarantees. *)
Record loop_post (u : Q) (detections out : list Detection) : Prop :=
  { post_incl : incl out detections;
    post_pairs : ForallOrdPairs (fun a b => passes u a b = true) out;
    post_sorted : StronglySorted conf_ge detections -> StronglySorted conf_ge out;
    post_head : forall best rest, detections = best :: rest ->
                exists out', out = best :: out';
    post_removed : forall d, In d detections ->
                   In d out \/ exists k, In k out /\ passes u k d = false;
    post_classes : NoDup (map det_cls detections) -> out = detections }.

(** A row with its four box coordinates and at least one class score. *)
Definition well_formed (pred : RawPrediction) : Prop := (5 <= length pred)%nat.

(** [m] is the largest of the scores [l]. *)
Definition is_max (m : Q) (l : list Q) : Prop :=
  In m l /\ forall s, In s l -> (s <= m)%Q.

(** [i] is the lowest position of [l] that holds the value [m]. *)
Definition first_index (m : Q) (l : list Q) (i : nat) : Prop :=
  (exists s, nth_error l i = Some s /\ (s == m)%Q) /\
  forall j s, (j < i)%nat -> nth_error l j = Some s -> ~ (s == m)%Q.

(** The bound under which no corner can overflow: a coordinate, or an
    image dimension, of magnitude [2^500] at most.  Normalized coordinates
    and real image sizes are far inside it. *)
Definition RANGE : Z := 2 ^ 500.

(** The four coordinates of a row are within the bound. *)
Definition in_float_range (pred : RawPrediction) : Prop :=
  Forall (fun v => (Qabs v <= inject_Z RANGE)%Q) (firstn 4 pred).

(** [d] is the detection of the row [pred]: its confidence is the largest
    class score, its class the lowest index holding it, its box a clamped
    one. *)
Record detection_of (img_width img_height : Z) (pred : RawPrediction)
    (d : Detection) : Prop :=
  { of_conf : is_max (det_conf d) (skipn 4 pred);
    of_cls : first_index (det_conf d) (skipn 4 pred) (det_cls d);
    of_box : exists corners,
        (det_x d, det_y d, det_w d, det_h d) =
        clamp_box img_width img_height corners }.

(** The detections of a tensor, row by row: none for a row whose largest
    score is below the threshold, exactly one for every other row. *)
Inductive Decoded (img_width img_height : Z) (conf_thresh : Q)
  : list RawPrediction -> list Detection -> Prop :=
| Decoded_nil : Decoded img_width img_height conf_thresh [] []
| Decoded_below pred predictions detections m :
    is_max m (skipn 4 pred) -> (m < conf_thresh)%Q ->
    Decoded img_width img_height conf_thresh predictions detections ->
    Decoded img_width img_height conf_thresh (pred :: predictions) detections
| Decoded_emit pred predictions d detections :
    detection_of img_width img_height pred d ->
    (conf_thresh <= det_conf d)%Q ->
    Decoded img_width img_height conf_thresh predictions detections ->
    Decoded img_width img_height conf_thresh (pred :: predictions)
      (d :: detections).



(** For every [GcCollect] of a trace, the number of frames displayed since
    the [GcCollect] before it ([since] frames were displayed before the trace
    starts). *)
Fixpoint gc_gaps (since : nat) (evs : list Event) : list nat :=
  match evs with
  | [] => []
  | Display :: evs' => gc_gaps (S since) evs'
  | GcCollect :: evs' => since :: gc_gaps 0 evs'
  | CameraDeinit :: evs' => gc_gaps since evs'
  end.

(** The number of frames displayed since the last [GcCollect], at the end
    of a trace that [since] displayed frames precede. *)
Fixpoint pending (since : nat) (evs : list Event) : nat :=
  match evs with
  | [] => since
  | Display :: evs' => pending (S since) evs'
  | GcCollect :: evs' => pending 0 evs'
  | CameraDeinit :: evs' => pending since evs'
  end.

(** For every frame displayed, whether a [GcCollect] follows it at once. *)
Fixpoint gc_flags (evs : list Event) : list bool :=
  match evs with
  | [] => []
  | Display :: evs' =>
      match evs' with
      | GcCollect :: _ => true
      | _ => false
      end :: gc_flags evs'
  | _ :: evs' => gc_flags evs'
  end.

(** The value of [frame_count] after [update_fps], for every frame that the
    loop processes. *)
Fixpoint counters (self : Tracker) (steps : list Step) : list Z :=
  match steps with
  | [] => []
  | CaptureNone :: rest => counters self rest
  | Frame current_time :: rest =>
      frame_count (update_fps self current_time)
        :: counters (update_fps self current_time) rest
  | InferenceError :: _ => []
  | KeyboardInterrupt :: _ => []
  end.

(** A step that is a processed frame inside the current FPS window, or no
    frame at all: [update_fps] does not reset then. *)
Definition in_window (t0 : Z) (s : Step) : Prop :=
  match s with
  | CaptureNone => True
  | Frame current_time => Ticks.ticks_diff current_time t0 < 1000
  | InferenceError | KeyboardInterrupt => False
  end.

(** ** [preprocess] and [draw_detections] *)

(** An image, as far as [preprocess] looks at it: [img.width()] and
    [img.height()]; [pixels] stands for its content. *)
Record Image : Type := mkImage
  { width : Z;
    height : Z;
    pixels : nat }.

(** [preprocess]; [resize] is the method [img.resize] of the platform. *)
Definition preprocess (img_width img_height : Z)
    (resize : Image -> Z -> Z -> Image) (img : Image) : Image :=
  if negb (width img =? img_width) || negb (height img =? img_height)
  then resize img img_width img_height
  else img.

Definition Color : Type := (Z * Z * Z)%type.

(** The palette [COLORS]. *)
Definition COLORS : list Color :=
  [(255, 0, 0); (0, 255, 0); (0, 0, 255); (255, 255, 0);
   (255, 0, 255); (0, 255, 255); (128, 0, 0); (0, 128, 0)].

(** The text of a label: a class name with a confidence (printed with two
    decimals), or the FPS overlay. *)
Inductive Label : Type :=
| ClassLabel (name : String.string) (conf : Q)
| FpsLabel (fps : Z).

(** The calls made on the image. *)
Inductive DrawCmd : Type :=
| DrawRectangle (x y w h : Z) (color : Color)
| DrawString (x y : Z) (label : Label) (color : Color).

(** [l[i]] on a list: [IndexError] past the end. *)
Definition getitem {A} (l : list A) (i : nat) : exc A := nth_error l i.

(** [draw_detections]: the image is the list of the calls made on it so far,
    and is drawn on in place; an exception leaves what was drawn, and the
    flag tells that it was raised. *)
Fixpoint draw_detections (CLASS_NAMES : list String.string) (img : list DrawCmd)
    (detections : list Detection) : list DrawCmd * bool :=
  match detections with
  | [] => (img, false)
  | det :: rest =>
      let '(x, y, w, h, conf, cls) :=
        (det_x det, det_y det, det_w det, det_h det, det_conf det, det_cls det) in
      match getitem COLORS (cls mod length COLORS) with
      | None => (img, true)
      | Some color =>
          let img := img ++ [DrawRectangle x y w h color] in
          match getitem CLASS_NAMES cls with
          | None => (img, true)
          | Some name =>
              let img := img ++ [DrawString x (y - 15) (ClassLabel name conf) color] in
              draw_detections CLASS_NAMES img rest
          end
      end
  end.

(** ** More vocabulary *)

(** A box of width and height that are not negative. *)
Definition proper_box (d : Detection) : Prop := 0 <= det_w d /\ 0 <= det_h d.

(** The box moved by [(dx, dy)]. *)
Definition shift (dx dy : Z) (d : Detection) : Detection :=
  mkDet (det_x d + dx) (det_y d + dy) (det_w d) (det_h d) (det_conf d) (det_cls d).

(** [l1] is [l2] with some elements left out, the order kept. *)
Inductive subseq {A} : list A -> list A -> Prop :=
| subseq_nil : subseq [] []
| subseq_skip a l1 l2 : subseq l1 l2 -> subseq l1 (a :: l2)
| subseq_take a l1 l2 : subseq l1 l2 -> subseq (a :: l1) (a :: l2).

(** The detections of class [c]. *)
Definition of_class (c : nat) (l : list Detection) : list Detection :=
  filter (fun d => (det_cls d =? c)%nat) l.

(** The values [update_fps] reports, one for every call that closes a
    window, in the order of the calls. *)
Fixpoint fps_reports (self : Tracker) (times : list Z) : list Z :=
  match times with
  | [] => []
  | t :: rest =>
      if 1000 <=? Ticks.ticks_diff t (last_time self)
      then fps (update_fps self t) :: fps_reports (update_fps self t) rest
      else fps_reports (update_fps self t) rest
  end.

(** The steps up to the first one that stops the loop. *)
Fixpoint before_stop (steps : list Step) : list Step :=
  match steps with
  | [] => []
  | InferenceError :: _ => []
  | KeyboardInterrupt :: _ => []
  | s :: rest => s :: before_stop rest
  end.

Definition is_frame (s : Step) : bool :=
  match s with Frame _ => true | _ => false end.

Definition is_stop (s : Step) : bool :=
  match s with InferenceError | KeyboardInterrupt => true | _ => false end.

Definition count_event (e : Event) (evs : list Event) : nat :=
  length (filter (fun e' => match e, e' with
                            | Display, Display => true
                            | GcCollect, GcCollect => true
                            | CameraDeinit, CameraDeinit => true
                            | _, _ => false
                            end) evs).

(** The boxes of the rectangles among the calls, in their order. *)
Definition rectangles (cmds : list DrawCmd) : list (Z * Z * Z * Z) :=
  flat_map (fun c => match c with
                     | DrawRectangle x y w h _ => [(x, y, w, h)]
                     | DrawString _ _ _ _ => []
                     end) cmds.

Definition box_of (d : Detection) : Z * Z * Z * Z :=
  (det_x d, det_y d, det_w d, det_h d).

(** Every call comes 1000 ms or more after the call before it ([t0] for
    the first one). *)
Fixpoint slow (t0 : Z) (times : list Z) : Prop :=
  match times with
  | [] => True
  | t :: rest => 1000 <= Ticks.ticks_diff t t0 /\ slow t rest
  end.

Definition sumZ (l : list Z) : Z := fold_right Z.add 0 l.

(** * Properties *)

(** ** Float comparisons *)

Lemma ltb_lt (a b : Q) : PyFloat.ltb a b = true <-> (a < b)%Q.
Proof.
  unfold PyFloat.ltb. rewrite negb_true_iff.
  split; intro H.
  - apply Qnot_le_lt. intro Hle. apply Qle_bool_iff in Hle. congruence.
  - destruct (Qle_bool b a) eqn:E; [|reflexivity].
    apply Qle_bool_iff in E. exfalso. exact (Qlt_not_le _ _ H E).
Qed.

Lemma ltb_ge (a b : Q) : PyFloat.ltb a b = false <-> (b <= a)%Q.
Proof.
  unfold PyFloat.ltb. rewrite negb_false_iff. apply Qle_bool_iff.
Qed.

Lemma ltb_irrefl (a : Q) : PyFloat.ltb a a = false.
Proof. apply ltb_ge. apply Qle_refl. Qed.

Lemma truediv_raises (a b : Z) : PyFloat.truediv a b = raise <-> b = 0.
Proof.
  unfold PyFloat.truediv. destruct (Z.eqb_spec b 0); split; intro H;
    try reflexivity; try assumption; try discriminate; contradiction.
Qed.

(** ** [iou] *)

Lemma inter_area_comm (box1 box2 : Detection) :
  inter_area box1 box2 = inter_area box2 box1.
Proof.
  unfold inter_area. cbn.
  rewrite (Z.max_comm (det_x box1)), (Z.max_comm (det_y box1)).
  rewrite (Z.min_comm (det_x box1 + det_w box1)).
  rewrite (Z.min_comm (det_y box1 + det_h box1)).
  reflexivity.
Qed.

Lemma union_area_comm (box1 box2 : Detection) :
  union_area box1 box2 = union_area box2 box1.
Proof.
  unfold union_area. rewrite inter_area_comm. lia.
Qed.

Lemma inter_area_nonneg (box1 box2 : Detection) : 0 <= inter_area box1 box2.
Proof. unfold inter_area. cbn. apply Z.mul_nonneg_nonneg; lia. Qed.

(** A box of area zero meets nothing. *)
Lemma inter_area_flat_l (box1 box2 : Detection) :
  box_area box1 = 0 -> inter_area box1 box2 = 0.
Proof.
  unfold box_area, inter_area. cbn. intro H.
  apply Z.mul_eq_0 in H. destruct H as [H|H]; rewrite H.
  - replace (Z.max 0 _) with 0 by lia. reflexivity.
  - rewrite Z.mul_comm. replace (Z.max 0 _) with 0 by lia. reflexivity.
Qed.

Lemma iou_returns (box1 box2 : Detection) : exists q, iou box1 box2 = ret q.
Proof.
  unfold iou. destruct (Z.ltb_spec 0 (union_area box1 box2)) as [H|H].
  - unfold PyFloat.truediv. destruct (Z.eqb_spec (union_area box1 box2) 0).
    + lia.
    + eexists. reflexivity.
  - eexists. reflexivity.
Qed.

Lemma iou_swap (box1 box2 : Detection) : iou box1 box2 = iou box2 box1.
Proof.
  unfold iou. rewrite (union_area_comm box1 box2), (inter_area_comm box1 box2).
  reflexivity.
Qed.

(** C8. [iou] is commutative: for all boxes [A] and [B], given as
    [(x, y, w, h)], the call [iou(A, B)] gives what [iou(B, A)] gives:
    the same guard on the same union area, and the same quotient. *)
Theorem iou_comm (A B : Detection) :
  iou A B = iou B A
  /\ inter_area A B = inter_area B A
  /\ union_area A B = union_area B A.
Proof.
  split; [apply iou_swap|].
  split; [apply inter_area_comm | apply union_area_comm].
Qed.

(** C9. [iou] never divides by zero: it always returns; on a union area of 0
    (or below) it returns 0 without dividing, in particular on two boxes of
    area zero wherever they lie; the quotient is taken, and is what is
    returned, exactly when the union area is strictly positive. *)
Theorem iou_zero_union (box1 box2 : Detection) :
  (exists q, iou box1 box2 = ret q)
  /\ (union_area box1 box2 = 0 -> iou box1 box2 = ret 0%Q)
  /\ (box_area box1 = 0 -> box_area box2 = 0 -> iou box1 box2 = ret 0%Q)
  /\ (union_area box1 box2 <= 0 -> iou box1 box2 = ret 0%Q)
  /\ (0 < union_area box1 box2 ->
      iou box1 box2 =
      ret (inject_Z (inter_area box1 box2) / inject_Z (union_area box1 box2))%Q
      /\ PyFloat.truediv (inter_area box1 box2) (union_area box1 box2) <> raise).
Proof.
  assert (Hle : union_area box1 box2 <= 0 -> iou box1 box2 = ret 0%Q).
  { intro H. unfold iou.
    destruct (Z.ltb_spec 0 (union_area box1 box2)); [lia | reflexivity]. }
  split; [apply iou_returns|].
  split; [intro H; apply Hle; lia|].
  split.
  { intros H1 H2. apply Hle. unfold union_area.
    rewrite H1, H2, (inter_area_flat_l box1 box2 H1). lia. }
  split; [exact Hle|].
  intro H. unfold iou.
  destruct (Z.ltb_spec 0 (union_area box1 box2)); [|lia].
  unfold PyFloat.truediv.
  destruct (Z.eqb_spec (union_area box1 box2) 0); [lia|].
  split; [reflexivity | discriminate].
Qed.

(** ** The sort of [nms] *)

Lemma insert_desc_perm (d : Detection) (l : list Detection) :
  Permutation (insert_desc d l) (d :: l).
Proof.
  induction l as [|e l IH]; simpl.
  - apply Permutation_refl.
  - destruct (PyFloat.ltb (det_conf d) (det_conf e)).
    + eapply perm_trans; [apply perm_skip, IH | apply perm_swap].
    + apply Permutation_refl.
Qed.

Lemma sort_by_conf_perm (l : list Detection) : Permutation (sort_by_conf l) l.
Proof.
  induction l as [|d l IH]; simpl.
  - apply perm_nil.
  - eapply perm_trans; [apply insert_desc_perm | apply perm_skip, IH].
Qed.

Lemma insert_desc_sorted (d : Detection) (l : list Detection) :
  StronglySorted conf_ge l -> StronglySorted conf_ge (insert_desc d l).
Proof.
  induction 1 as [|e l Hs IH Hall]; simpl.
  - constructor; constructor.
  - destruct (PyFloat.ltb (det_conf d) (det_conf e)) eqn:E.
    + constructor; [exact IH|].
      apply (Permutation_Forall (Permutation_sym (insert_desc_perm d l))).
      constructor; [|exact Hall].
      apply ltb_lt in E. unfold conf_ge. apply Qlt_le_weak, E.
    + apply ltb_ge in E.
      constructor; [constructor; assumption|].
      constructor; [exact E|].
      eapply Forall_impl; [|exact Hall].
      intros x Hx. unfold conf_ge in *. eapply Qle_trans; eassumption.
Qed.

Lemma sort_by_conf_sorted (l : list Detection) :
  StronglySorted conf_ge (sort_by_conf l).
Proof.
  induction l as [|d l IH]; simpl.
  - constructor.
  - apply insert_desc_sorted, IH.
Qed.

(** The sort is stable: detections of one confidence keep their order. *)
Lemma insert_desc_stable (c : Q) (d : Detection) (l : list Detection) :
  filter (fun x => PyFloat.eqb (det_conf x) c) (insert_desc d l) =
  filter (fun x => PyFloat.eqb (det_conf x) c) (d :: l).
Proof.
  induction l as [|e l IH]; [reflexivity|].
  cbn [insert_desc].
  destruct (PyFloat.ltb (det_conf d) (det_conf e)) eqn:E; [|reflexivity].
  cbn [filter] in *. rewrite IH.
  destruct (PyFloat.eqb (det_conf d) c) eqn:Ed; [|reflexivity].
  destruct (PyFloat.eqb (det_conf e) c) eqn:Ee; [|reflexivity].
  exfalso. apply ltb_lt in E.
  apply Qeq_bool_iff in Ed, Ee. rewrite Ed, Ee in E.
  exact (Qlt_irrefl _ E).
Qed.

Lemma sort_by_conf_stable (c : Q) (l : list Detection) :
  filter (fun x => PyFloat.eqb (det_conf x) c) (sort_by_conf l) =
  filter (fun x => PyFloat.eqb (det_conf x) c) l.
Proof.
  induction l as [|d l IH]; [reflexivity|].
  cbn [sort_by_conf fold_right]. rewrite insert_desc_stable.
  cbn [filter]. fold (sort_by_conf l). rewrite IH. reflexivity.
Qed.

(** Sorting a list that is in descending order changes nothing. *)
Lemma sort_by_conf_sorted_id (l : list Detection) :
  StronglySorted conf_ge l -> sort_by_conf l = l.
Proof.
  induction 1 as [|d l Hs IH Hall]; [reflexivity|].
  cbn [sort_by_conf fold_right]. fold (sort_by_conf l). rewrite IH.
  destruct l as [|e l]; [reflexivity|].
  cbn [insert_desc].
  inversion Hall as [|? ? He _]; subst.
  apply ltb_ge in He. rewrite He. reflexivity.
Qed.

Lemma StronglySorted_filter {A} (R : A -> A -> Prop) (f : A -> bool) (l : list A) :
  StronglySorted R l -> StronglySorted R (filter f l).
Proof.
  induction 1 as [|a l Hs IH Hall]; simpl; [constructor|].
  destruct (f a); [|exact IH].
  constructor; [exact IH|].
  apply Forall_forall. intros x Hx. apply filter_In in Hx.
  rewrite Forall_forall in Hall. apply Hall, Hx.
Qed.

(** ** The loop of [nms] *)

Lemma retained_passes (u : Q) (best det : Detection) :
  retained u best det = ret (passes u best det).
Proof.
  unfold passes, retained.
  destruct (iou_returns best det) as [q Hq]. rewrite Hq. reflexivity.
Qed.

Lemma passes_spec (u : Q) (best det : Detection) :
  passes u best det = true <->
  exists q, iou best det = ret q /\ ((q < u)%Q \/ det_cls best <> det_cls det).
Proof.
  unfold passes, retained.
  destruct (iou_returns best det) as [q Hq]. rewrite Hq. cbn.
  rewrite orb_true_iff, negb_true_iff, ltb_lt, Nat.eqb_neq.
  split.
  - intro H. exists q. split; [reflexivity | exact H].
  - intros [q' [E H]]. injection E as <-. exact H.
Qed.

Lemma passes_false_suppresses (u : Q) (best det : Detection) :
  passes u best det = false <-> suppresses u best det.
Proof.
  unfold passes, retained, suppresses.
  destruct (iou_returns best det) as [q Hq]. rewrite Hq. cbn.
  rewrite orb_false_iff, negb_false_iff, ltb_ge, Nat.eqb_eq.
  split.
  - intros [H1 H2]. split; [exact H2|]. exists q. split; [reflexivity | exact H1].
  - intros [H2 [q' [E H1]]]. injection E as <-. split; assumption.
Qed.

Lemma passes_compatible (u : Q) (a b : Detection) :
  passes u a b = true -> compatible u a b.
Proof.
  intros H Hcls. apply passes_spec in H. destruct H as [q [Hq [H|H]]].
  - exists q. rewrite (iou_swap b a). auto.
  - contradiction.
Qed.

Lemma filter_exc_filter {A} (p : A -> exc bool) (f : A -> bool) (l : list A) :
  (forall a, p a = ret (f a)) -> filter_exc p l = ret (filter f l).
Proof.
  intro H. induction l as [|a l IH]; [reflexivity|].
  cbn [filter_exc filter]. rewrite H, IH. cbn. destruct (f a); reflexivity.
Qed.

(** One turn of the [while] loop. *)
Lemma nms_loop_cons (u : Q) (keep : list Detection) (best : Detection)
    (rest : list Detection) :
  nms_loop u keep (best :: rest) =
  nms_loop u (keep ++ [best]) (filter (passes u best) rest).
Proof.
  transitivity (rest' <- filter_exc (retained u best) rest ;;
                nms_loop u (keep ++ [best]) rest').
  - simp nms_loop.
    destruct (inspect (filter_exc (retained u best) rest)) as [r e].
    destruct r; simpl; rewrite e; reflexivity.
  - rewrite (filter_exc_filter (retained u best) (passes u best) rest
               (retained_passes u best)).
    reflexivity.
Qed.

Lemma filter_length_le {A} (f : A -> bool) (l : list A) :
  (length (filter f l) <= length l)%nat.
Proof.
  induction l as [|a l IH]; simpl; [lia|]. destruct (f a); simpl; lia.
Qed.

(** The loop always returns, and what it returns is described by any relation
    between working list and result that holds of the empty lists and is kept
    by one turn of the loop. *)
Lemma nms_loop_rel (u : Q) (P : list Detection -> list Detection -> Prop) :
  P [] [] ->
  (forall best rest out,
      P (filter (passes u best) rest) out -> P (best :: rest) (best :: out)) ->
  forall detections keep,
  exists out, nms_loop u keep detections = ret (keep ++ out) /\ P detections out.
Proof.
  intros Hnil Hstep detections.
  induction detections as [detections IH]
    using (well_founded_induction (Wf_nat.well_founded_ltof _ (@length _))).
  intro keep. destruct detections as [|best rest].
  - exists []. simp nms_loop. rewrite app_nil_r. auto.
  - rewrite nms_loop_cons.
    destruct (IH (filter (passes u best) rest)) with (keep := keep ++ [best])
      as [out [E HP]].
    { unfold Wf_nat.ltof. simpl. apply Nat.lt_succ_r, filter_length_le. }
    exists (best :: out). rewrite E, <- app_assoc. auto.
Qed.

(** [nms] is the loop run on the sorted list, the empty list included. *)
Lemma nms_unfold (detections : list Detection) (u : Q) :
  nms detections u = nms_loop u [] (sort_by_conf detections).
Proof.
  unfold nms. destruct detections; [|reflexivity].
  simpl. simp nms_loop. reflexivity.
Qed.

Lemma nms_loop_post (u : Q) (detections : list Detection) :
  exists out, nms_loop u [] detections = ret out /\ loop_post u detections out.
Proof.
  enough (H : forall keep, exists out,
               nms_loop u keep detections = ret (keep ++ out) /\
               loop_post u detections out) by exact (H []).
  revert detections. apply (@nms_loop_rel u (loop_post u)).
  - constructor; try (intros; constructor); easy.
  - intros best rest out [Hincl Hpairs Hsorted _ Hrem Hcls].
    assert (Hsub : incl out rest).
    { intros x Hx. apply Hincl, filter_In in Hx. apply Hx. }
    constructor.
    + intros x [<-|Hx]; [left; reflexivity | right; apply Hsub, Hx].
    + constructor; [|exact Hpairs].
      apply Forall_forall. intros x Hx.
      apply Hincl, filter_In in Hx. apply Hx.
    + intro Hs. inversion Hs as [|? ? Hs' Hall]; subst.
      constructor.
      * apply Hsorted, StronglySorted_filter, Hs'.
      * rewrite Forall_forall in *. intros x Hx. apply Hall, Hsub, Hx.
    + intros b r E. injection E as <- <-. eexists. reflexivity.
    + intros d [<-|Hd]; [left; left; reflexivity|].
      destruct (passes u best d) eqn:E.
      * destruct (Hrem d) as [H|[k [Hk Hp]]].
        { apply filter_In. auto. }
        { left. right. exact H. }
        { right. exists k. split; [right; exact Hk | exact Hp]. }
      * right. exists best. split; [left; reflexivity | exact E].
    + intro Hnd. cbn [map] in Hnd. inversion Hnd as [|? ? Hnotin Hnd']; subst.
      assert (Hall : filter (passes u best) rest = rest).
      { apply forallb_filter_id. apply forallb_forall. intros x Hx.
        apply passes_spec. destruct (iou_returns best x) as [q Hq].
        exists q. split; [exact Hq|]. right. intro Heq.
        apply Hnotin. rewrite Heq. apply in_map, Hx. }
      rewrite Hall in Hcls. rewrite (Hcls Hnd'). reflexivity.
Qed.

(** The list built so far only ever grows at its end. *)
Lemma nms_loop_acc (u : Q) (detections : list Detection) :
  exists out, forall keep, nms_loop u keep detections = ret (keep ++ out).
Proof.
  destruct (@nms_loop_rel u
              (fun l out => forall keep, nms_loop u keep l = ret (keep ++ out)))
    with (detections := detections) (keep := @nil Detection) as [out [_ H]].
  - intro keep. simp nms_loop. rewrite app_nil_r. reflexivity.
  - intros best rest out IH keep.
    rewrite nms_loop_cons, IH, <- app_assoc. reflexivity.
  - exists out. exact H.
Qed.

(** A list no member of which suppresses a later one goes through the loop
    unchanged. *)
Lemma nms_loop_fixed (u : Q) (l : list Detection) :
  ForallOrdPairs (fun a b => passes u a b = true) l ->
  nms_loop u [] l = ret l.
Proof.
  induction 1 as [|a l Hall Hrest IH].
  - simp nms_loop. reflexivity.
  - rewrite nms_loop_cons.
    rewrite forallb_filter_id by (apply forallb_forall, Forall_forall, Hall).
    destruct (nms_loop_acc u l) as [out Hout].
    assert (out = l) by (rewrite (Hout []) in IH; injection IH; auto).
    subst out. rewrite Hout. reflexivity.
Qed.

(** ** [nms] *)

(** C1. For every list of detections and every threshold [u], [nms] returns
    a list [keep] of members of the input in which no two detections of one
    class have an IoU at or above [u]; a detection is left out only when a
    kept detection of its own class overlaps it with an IoU of at least [u],
    so detections of different classes never suppress one another: an input
    whose classes are all different is returned whole, as are two boxes of
    different classes, however much they overlap. *)
Theorem nms_class_scoped (detections : list Detection) (u : Q) :
  exists keep,
    nms detections u = ret keep
    /\ incl keep detections
    /\ ForallOrdPairs (compatible u) keep
    /\ (forall d, In d detections ->
        In d keep \/ exists k, In k keep /\ suppresses u k d)
    /\ (NoDup (map det_cls detections) -> Permutation keep detections)
    /\ (forall a b, detections = [a; b] -> det_cls a <> det_cls b ->
        In a keep /\ In b keep /\ length keep = 2%nat).
Proof.
  rewrite nms_unfold.
  destruct (nms_loop_post u (sort_by_conf detections))
    as [keep [E [Hincl Hpairs _ _ Hrem Hcls]]].
  pose proof (sort_by_conf_perm detections) as Hperm.
  assert (Hnodup : NoDup (map det_cls detections) -> Permutation keep detections).
  { intro Hnd. rewrite Hcls; [exact Hperm|].
    eapply Permutation_NoDup; [|exact Hnd].
    apply Permutation_map, Permutation_sym, Hperm. }
  exists keep.
  split; [exact E|].
  split.
  { intros x Hx. eapply Permutation_in; [exact Hperm | apply Hincl, Hx]. }
  split.
  { clear -Hpairs. induction Hpairs as [|a l Hall _ IH]; constructor.
    - eapply Forall_impl; [|exact Hall]. intros b. apply passes_compatible.
    - exact IH. }
  split.
  { intros d Hd.
    destruct (Hrem d) as [H|[k [Hk Hp]]].
    - eapply Permutation_in; [apply Permutation_sym, Hperm | exact Hd].
    - left. exact H.
    - right. exists k. split; [exact Hk|]. apply passes_false_suppresses, Hp. }
  split; [exact Hnodup|].
  intros a b -> Hne.
  assert (Hp : Permutation [a; b] keep).
  { apply Permutation_sym, Hnodup. simpl.
    constructor; [simpl; intuition congruence|].
    constructor; [simpl; tauto | constructor]. }
  split; [|split].
  - apply (Permutation_in _ Hp). left. reflexivity.
  - apply (Permutation_in _ Hp). right. left. reflexivity.
  - symmetry. apply (Permutation_length Hp).
Qed.

(** C7. [nms] is idempotent: it returns on every input, and run again on
    what it returned, with the same threshold, it returns the same list. *)
Theorem nms_idempotent (detections : list Detection) (u : Q) :
  exists keep, nms detections u = ret keep /\ nms keep u = ret keep.
Proof.
  destruct (nms_loop_post u (sort_by_conf detections))
    as [keep [E [_ Hpairs Hsorted _ _ _]]].
  exists keep. split.
  - rewrite nms_unfold. exact E.
  - rewrite nms_unfold.
    rewrite (sort_by_conf_sorted_id keep (Hsorted (sort_by_conf_sorted detections))).
    apply nms_loop_fixed, Hpairs.
Qed.

(** C10. On a non-empty input [nms] returns a non-empty list whose first
    element is a detection of the input of maximal confidence. *)
Theorem nms_best_first (detections : list Detection) (u : Q) :
  detections <> [] ->
  exists best rest,
    nms detections u = ret (best :: rest)
    /\ In best detections
    /\ forall d, In d detections -> (det_conf d <= det_conf best)%Q.
Proof.
  intro Hne. rewrite nms_unfold.
  pose proof (sort_by_conf_perm detections) as Hperm.
  pose proof (sort_by_conf_sorted detections) as Hsorted.
  destruct (nms_loop_post u (sort_by_conf detections))
    as [keep [E [_ _ _ Hhead _ _]]].
  destruct (sort_by_conf detections) as [|best sorted] eqn:Es.
  - apply Permutation_nil in Hperm. contradiction.
  - destruct (Hhead best sorted eq_refl) as [rest ->].
    exists best, rest. split; [exact E|]. split.
    + eapply Permutation_in; [exact Hperm | left; reflexivity].
    + intros d Hd.
      apply (Permutation_in _ (Permutation_sym Hperm)) in Hd.
      inversion Hsorted as [|? ? _ Hall]; subst.
      destruct Hd as [<-|Hd]; [apply Qle_refl|].
      rewrite Forall_forall in Hall. apply Hall, Hd.
Qed.

Lemma nms_best_first_witness :
  exists best rest,
    nms [mkDet 0 0 10 10 (1 # 2) 0; mkDet 2 0 10 10 (9 # 10) 0] (1 # 2)
    = ret (best :: rest)
    /\ In best [mkDet 0 0 10 10 (1 # 2) 0; mkDet 2 0 10 10 (9 # 10) 0]
    /\ forall d, In d [mkDet 0 0 10 10 (1 # 2) 0; mkDet 2 0 10 10 (9 # 10) 0] ->
                 (det_conf d <= det_conf best)%Q.
Proof.
  apply (@nms_best_first
           [mkDet 0 0 10 10 (1 # 2) 0; mkDet 2 0 10 10 (9 # 10) 0] (1 # 2)).
  discriminate.
Defined.

(** ** The coordinate clamp *)





(** Whatever the corners, the clamp puts them in the closed ranges
    [[0, img_width]] and [[0, img_height]]; corners in order give a box of
    width and height that are not negative. *)
Lemma clamp_box_bounds (W H x1 y1 x2 y2 : Z) :
  0 < W -> 0 < H ->
  let '(x, y, w, h) := clamp_box W H (x1, y1, x2, y2) in
  0 <= x <= W /\ 0 <= y <= H /\ 0 <= x + w <= W /\ 0 <= y + h <= H
  /\ (x1 <= x2 -> 0 <= w) /\ (y1 <= y2 -> 0 <= h).
Proof. intros HW HH. unfold clamp_box. lia. Qed.




(** The clamp is to the closed range: a box beyond the right edge is mapped
    to the column [img_width] itself, with width zero. *)
Example pixel_box_right_edge :
  pixel_box 320 320 (3 # 2) (1 # 2) (1 # 5) (1 # 5) = (320, 128, 0, 64).
Proof. reflexivity. Qed.

(** A box that fills the frame keeps its full size. *)
Example pixel_box_full_frame :
  pixel_box 320 240 (1 # 2) (1 # 2) 1 1 = (0, 0, 320, 240).
Proof. reflexivity. Qed.

(** ** The decoder *)

Lemma fold_max_spec (xs : list Q) (x : Q) :
  let m := fold_left (fun m y => if PyFloat.ltb m y then y else m) xs x in
  In m (x :: xs) /\ forall s, In s (x :: xs) -> (s <= m)%Q.
Proof.
  revert x. induction xs as [|y ys IH]; intro x; cbn [fold_left].
  - split; [left; reflexivity|].
    intros s [<-|[]]. apply Qle_refl.
  - destruct (IH (if PyFloat.ltb x y then y else x)) as [Hin Hle].
    set (m := fold_left _ ys _) in *.
    split.
    + destruct Hin as [Hin|Hin]; [|right; right; exact Hin].
      destruct (PyFloat.ltb x y); [right; left | left]; exact Hin.
    + assert (Hstep : (x <= m /\ y <= m)%Q).
      { pose proof (Hle _ (or_introl eq_refl)) as H0.
        destruct (PyFloat.ltb x y) eqn:E.
        - apply ltb_lt in E. split; [|exact H0].
          eapply Qle_trans; [apply Qlt_le_weak, E | exact H0].
        - apply ltb_ge in E. split; [exact H0|].
          eapply Qle_trans; [exact E | exact H0]. }
      intros s [<-|[<-|Hs]]; [apply Hstep | apply Hstep |].
      apply Hle. right. exact Hs.
Qed.

Lemma py_max_is_max (l : list Q) (m : Q) : py_max l = ret m -> is_max m l.
Proof.
  destruct l as [|x xs]; [discriminate|].
  intro H. injection H as <-. apply fold_max_spec.
Qed.

Lemma index_first (m : Q) (l : list Q) :
  In m l -> exists i, index m l = ret i /\ first_index m l i.
Proof.
  induction l as [|x xs IH]; [intros []|].
  intro Hin. cbn [index].
  destruct (PyFloat.eqb x m) eqn:E.
  - exists 0%nat. split; [reflexivity|]. split.
    + exists x. split; [reflexivity | apply Qeq_bool_iff, E].
    + intros j s Hj. inversion Hj.
  - assert (Hxs : In m xs).
    { destruct Hin as [->|Hin]; [|exact Hin].
      unfold PyFloat.eqb in E. rewrite Qeq_bool_refl in E. discriminate. }
    destruct (IH Hxs) as [i [Ei [[s [Hs Hsm]] Hfirst]]].
    exists (S i). rewrite Ei. split; [reflexivity|]. split.
    + exists s. auto.
    + intros [|j] s' Hj Hnth.
      * injection Hnth as <-. intro Hq. apply Qeq_bool_iff in Hq.
        unfold PyFloat.eqb in E. congruence.
      * apply (Hfirst j); [lia | exact Hnth].
Qed.

(** Below the limit nothing overflows. *)
Lemma overflows_below (q : Q) (b : Z) :
  (Qabs q <= inject_Z b)%Q -> b < 2 ^ 1024 - 2 ^ 970 -> overflows q = false.
Proof.
  intros Hq Hb. unfold overflows.
  destruct (Qle_bool FLOAT_LIMIT (Qabs q)) eqn:E; [|reflexivity].
  apply Qle_bool_iff in E. exfalso.
  assert (H : (FLOAT_LIMIT <= inject_Z b)%Q) by (eapply Qle_trans; eassumption).
  unfold FLOAT_LIMIT in H. rewrite <- Zle_Qle in H.
  apply (Z.lt_irrefl b). eapply Z.lt_le_trans; eassumption.
Qed.

Lemma range_square_below_limit : 2 * RANGE * RANGE < 2 ^ 1024 - 2 ^ 970.
Proof. vm_compute. reflexivity. Qed.

Lemma range_below_limit : RANGE < 2 ^ 1024 - 2 ^ 970.
Proof. vm_compute. reflexivity. Qed.

Lemma range_double_below_limit : 2 * RANGE < 2 ^ 1024 - 2 ^ 970.
Proof. vm_compute. reflexivity. Qed.

Lemma range_nonneg : 0 <= RANGE.
Proof. vm_compute. discriminate. Qed.

(** A centre and half a size within the bound: within twice the bound. *)
Lemma half_range (c s : Q) :
  (Qabs c <= inject_Z RANGE)%Q -> (Qabs s <= inject_Z RANGE)%Q ->
  (Qabs (c - s / 2) <= inject_Z (2 * RANGE))%Q
  /\ (Qabs (c + s / 2) <= inject_Z (2 * RANGE))%Q.
Proof.
  intros Hc Hs. rewrite inject_Z_mult.
  generalize dependent (inject_Z RANGE). intros r Hc Hs.
  apply Qabs_Qle_condition in Hc, Hs.
  unfold Qdiv. change (/ 2)%Q with (1 # 2)%Q. change (inject_Z 2) with 2%Q.
  split; apply Qabs_Qle_condition; lra.
Qed.

(** Inside the range [int()] gets a finite product, and truncates it. *)
Lemma int_of_scaled_in_range (a : Q) (dim : Z) :
  (Qabs a <= inject_Z (2 * RANGE))%Q -> Z.abs dim <= RANGE ->
  int_of_scaled a dim = ret (PyFloat.to_int (a * inject_Z dim)).
Proof.
  intros Ha Hd. unfold int_of_scaled.
  rewrite (overflows_below a (2 * RANGE) Ha range_double_below_limit).
  assert (Hdim : (Qabs (inject_Z dim) <= inject_Z RANGE)%Q).
  { change (Qabs (inject_Z dim)) with (inject_Z (Z.abs dim)).
    rewrite <- Zle_Qle. exact Hd. }
  rewrite (overflows_below (inject_Z dim) RANGE Hdim range_below_limit).
  rewrite (overflows_below (a * inject_Z dim) (2 * RANGE * RANGE));
    [reflexivity | | exact range_square_below_limit].
  rewrite Qabs_Qmult, (inject_Z_mult (2 * RANGE) RANGE).
  apply Qmult_le_compat_nonneg; split;
    try apply Qabs_nonneg; assumption.
Qed.

Lemma corner_ints_in_range (W H : Z) (xc yc wd ht : Q) :
  Z.abs W <= RANGE -> Z.abs H <= RANGE ->
  in_float_range [xc; yc; wd; ht] ->
  corner_ints W H xc yc wd ht = ret (corner_coords W H xc yc wd ht).
Proof.
  intros HW HH Hr. unfold in_float_range in Hr. cbn [firstn] in Hr.
  inversion Hr as [|? ? Hxc Hr1]; subst.
  inversion Hr1 as [|? ? Hyc Hr2]; subst.
  inversion Hr2 as [|? ? Hwd Hr3]; subst.
  inversion Hr3 as [|? ? Hht _]; subst.
  destruct (half_range xc wd Hxc Hwd) as [Hx1 Hx2].
  destruct (half_range yc ht Hyc Hht) as [Hy1 Hy2].
  unfold corner_ints, corner_coords.
  rewrite !int_of_scaled_in_range by assumption.
  reflexivity.
Qed.

(** What the four assignments give, when they raise nothing. *)
Lemma corner_ints_value (W H : Z) (xc yc wd ht : Q) (c : Z * Z * Z * Z) :
  corner_ints W H xc yc wd ht = ret c -> c = corner_coords W H xc yc wd ht.
Proof.
  unfold corner_ints, corner_coords, int_of_scaled.
  repeat match goal with
         | |- context [if ?b then _ else _] => destruct b
         end; cbn; intro E; try discriminate E.
  injection E as <-. reflexivity.
Qed.

(** The body of the loop on a well-formed row with coordinates in range. *)
Lemma decode_pred_well_formed (W H : Z) (t : Q) (pred : RawPrediction) :
  Z.abs W <= RANGE -> Z.abs H <= RANGE ->
  well_formed pred -> in_float_range pred ->
  exists m, is_max m (skipn 4 pred) /\
    ((m < t)%Q /\ decode_pred W H t pred = ret None
     \/ (t <= m)%Q /\ exists d, decode_pred W H t pred = ret (Some d)
                                /\ detection_of W H pred d /\ det_conf d = m).
Proof.
  intros HW HH. unfold well_formed.
  destruct pred as [|xc [|yc [|wd [|ht [|s ss]]]]]; simpl; try lia.
  intros _ Hr. unfold decode_pred. cbn [firstn skipn unpack4 bind ret].
  destruct (py_max (s :: ss)) as [m|] eqn:Em; [|discriminate].
  pose proof (py_max_is_max _ _ Em) as Hmax.
  exists m. split; [exact Hmax|]. cbn [bind].
  destruct (PyFloat.ltb m t) eqn:Et.
  - left. split; [apply ltb_lt, Et | reflexivity].
  - right. split; [apply ltb_ge, Et|].
    destruct (@index_first m (s :: ss) (proj1 Hmax)) as [i [Ei Hi]].
    rewrite Ei. cbn [bind].
    rewrite (corner_ints_in_range W H xc yc wd ht HW HH)
      by (unfold in_float_range in *; cbn [firstn] in *; exact Hr).
    cbn [bind ret].
    destruct (clamp_box W H (corner_coords W H xc yc wd ht))
      as [[[x y] w] h] eqn:Eb.
    eexists. split; [reflexivity|]. split; [|reflexivity].
    constructor; cbn; [exact Hmax | exact Hi |].
    exists (corner_coords W H xc yc wd ht). symmetry. exact Eb.
Qed.

(** The body of the loop raises on a row that is too short. *)
Lemma decode_pred_malformed (W H : Z) (t : Q) (pred : RawPrediction) :
  ~ well_formed pred -> decode_pred W H t pred = raise.
Proof.
  unfold well_formed.
  destruct pred as [|xc [|yc [|wd [|ht [|s ss]]]]]; simpl; try reflexivity.
  intro Hn. exfalso. apply Hn. lia.
Qed.

Lemma decode_loop_acc (W H : Z) (t : Q) (predictions : list RawPrediction)
    (detections : list Detection) :
  decode_loop W H t predictions detections =
  (detections ++ fst (decode_loop W H t predictions []),
   snd (decode_loop W H t predictions [])).
Proof.
  revert detections.
  induction predictions as [|pred rest IH]; intro detections; cbn [decode_loop].
  - rewrite app_nil_r. reflexivity.
  - destruct (decode_pred W H t pred) as [[d|]|].
    + rewrite (IH (detections ++ [d])), (IH ([] ++ [d])).
      cbn [fst snd]. rewrite <- app_assoc. reflexivity.
    + apply IH.
    + cbn. rewrite app_nil_r. reflexivity.
Qed.

Lemma decode_loop_well_formed (W H : Z) (t : Q) (predictions : list RawPrediction) :
  Z.abs W <= RANGE -> Z.abs H <= RANGE ->
  Forall well_formed predictions ->
  Forall in_float_range predictions ->
  Decoded W H t predictions (fst (decode_loop W H t predictions []))
  /\ snd (decode_loop W H t predictions []) = false.
Proof.
  intros HW HH Hwf. induction Hwf as [|pred rest Hwf _ IH]; intro Hr;
    cbn [decode_loop].
  - split; [constructor | reflexivity].
  - inversion Hr as [|? ? Hp Hrest]; subst. specialize (IH Hrest).
    destruct (decode_pred_well_formed W H t pred HW HH Hwf Hp)
      as [m [Hmax [[Hlt E]|[Hge [d [E [Hd Hc]]]]]]];
      rewrite E; unfold ret; cbv iota.
    + split; [|apply IH]. eapply Decoded_below; [exact Hmax | exact Hlt | apply IH].
    + rewrite (decode_loop_acc W H t rest ([] ++ [d])). cbn [fst snd app].
      split; [|apply IH]. apply Decoded_emit; [exact Hd | | apply IH].
      rewrite Hc. exact Hge.
Qed.

(** Discharges [in_float_range] and the bounds on the image on concrete
    numbers. *)
Ltac in_range :=
  unfold in_float_range; cbn [firstn];
  repeat (apply Forall_cons; [vm_compute; discriminate|]); apply Forall_nil.

Ltac all_in_range :=
  repeat (apply Forall_cons; [in_range|]); apply Forall_nil.

Ltac all_well_formed :=
  repeat (apply Forall_cons; [unfold well_formed; simpl; lia|]);
  apply Forall_nil.

(** C2. On a tensor of well-formed rows, with coordinates and image
    dimensions of a magnitude that float arithmetic holds (up to [2^500],
    normalized coordinates included), the decoder raises nothing and
    yields, in the order of the rows, exactly one detection for each row
    whose largest class score is at least the threshold and none for each
    row whose largest class score is below it; the confidence of a detection
    is that largest score and its class the lowest index holding it. *)
Theorem decode_one_per_row (W H : Z) (t : Q) (predictions : list RawPrediction)
    (others : list (list RawPrediction)) :
  Z.abs W <= RANGE -> Z.abs H <= RANGE ->
  Forall well_formed predictions ->
  Forall in_float_range predictions ->
  Decoded W H t predictions (decode W H t (predictions :: others))
  /\ snd (decode_loop W H t predictions []) = false.
Proof.
  intros HW HH Hwf Hr. unfold decode.
  apply decode_loop_well_formed; assumption.
Qed.

Lemma decode_one_per_row_witness :
  Decoded 320 320 (1 # 2)
    [[1 # 2; 1 # 2; 1 # 5; 1 # 5; 9 # 10; 1 # 10];
     [1 # 4; 1 # 4; 1 # 5; 1 # 5; 3 # 10; 2 # 5];
     [3 # 4; 3 # 4; 1 # 5; 1 # 5; 7 # 10; 7 # 10]]%Q
    (decode 320 320 (1 # 2)
       [[[1 # 2; 1 # 2; 1 # 5; 1 # 5; 9 # 10; 1 # 10];
         [1 # 4; 1 # 4; 1 # 5; 1 # 5; 3 # 10; 2 # 5];
         [3 # 4; 3 # 4; 1 # 5; 1 # 5; 7 # 10; 7 # 10]]%Q])
  /\ snd (decode_loop 320 320 (1 # 2)
       [[1 # 2; 1 # 2; 1 # 5; 1 # 5; 9 # 10; 1 # 10];
        [1 # 4; 1 # 4; 1 # 5; 1 # 5; 3 # 10; 2 # 5];
        [3 # 4; 3 # 4; 1 # 5; 1 # 5; 7 # 10; 7 # 10]]%Q []) = false.
Proof.
  apply decode_one_per_row.
  - vm_compute. discriminate.
  - vm_compute. discriminate.
  - all_well_formed.
  - all_in_range.
Defined.

(** A row whose corner is too large for a float raises in [int()], once its
    score has passed the threshold, and ends the decoding like a malformed
    row; below the threshold it is skipped before [int()] is reached. *)
Example decode_overflow :
  decode 320 320 (1 # 4)
    [[[inject_Z (10 ^ 306); 1 # 2; 1 # 5; 1 # 5; 3 # 10];
      [1 # 2; 1 # 2; 1 # 5; 1 # 5; 9 # 10]]%Q] = []
  /\ decode 320 320 (1 # 2)
    [[[inject_Z (10 ^ 306); 1 # 2; 1 # 5; 1 # 5; 3 # 10];
      [1 # 2; 1 # 2; 1 # 5; 1 # 5; 9 # 10]]%Q]
     = [mkDet 128 128 64 64 (9 # 10) 0].
Proof. split; vm_compute; reflexivity. Qed.

(** Scenario 1 of the specification. *)
Example decode_scenario_1 :
  decode 320 320 (1 # 2) [[[1 # 2; 1 # 2; 1 # 5; 1 # 5; 9 # 10; 1 # 10]%Q]]
  = [mkDet 128 128 64 64 (9 # 10) 0].
Proof. reflexivity. Qed.

Lemma decode_loop_malformed (W H : Z) (t : Q)
    (before : list RawPrediction) (bad : RawPrediction)
    (after : list RawPrediction) (detections : list Detection) :
  Z.abs W <= RANGE -> Z.abs H <= RANGE ->
  Forall well_formed before -> Forall in_float_range before ->
  ~ well_formed bad ->
  decode_loop W H t (before ++ bad :: after) detections =
  (fst (decode_loop W H t before detections), true).
Proof.
  intros HW HH Hwf Hr Hbad. revert detections Hr.
  induction Hwf as [|pred rest Hp _ IH]; intros detections Hr;
    cbn [app decode_loop].
  - rewrite (decode_pred_malformed W H t bad Hbad). reflexivity.
  - inversion Hr as [|? ? Hpr Hrest]; subst.
    destruct (decode_pred W H t pred) as [[d|]|] eqn:E.
    + apply IH, Hrest.
    + apply IH, Hrest.
    + destruct (decode_pred_well_formed W H t pred HW HH Hp Hpr)
        as [m [_ [[_ E']|[_ [d [E' _]]]]]]; unfold ret in E'; congruence.
Qed.

Lemma nms_returns (detections : list Detection) (u : Q) :
  exists keep, nms detections u = ret keep.
Proof.
  rewrite nms_unfold.
  destruct (nms_loop_post u (sort_by_conf detections)) as [keep [E _]].
  exists keep. exact E.
Qed.

(** C4, as amended. A malformed row (fewer than five entries: no full box, or
    no class score) raises nothing to the caller, and decoding stops there:
    the rows before it, when they are well-formed and their coordinates of a
    magnitude that float arithmetic holds (up to [2^500], as the image
    dimensions), are decoded as usual, and neither the malformed row nor any
    row after it yields a detection, so the output is that of the tensor cut
    before the malformed row. *)
Theorem decode_stops_at_malformed (W H : Z) (t u : Q)
    (before : list RawPrediction) (bad : RawPrediction)
    (after : list RawPrediction) (others : list (list RawPrediction)) :
  Z.abs W <= RANGE -> Z.abs H <= RANGE ->
  Forall well_formed before -> Forall in_float_range before ->
  ~ well_formed bad ->
  decode W H t ((before ++ bad :: after) :: others) =
  decode W H t (before :: others)
  /\ Decoded W H t before (decode W H t ((before ++ bad :: after) :: others))
  /\ exists keep,
       postprocess W H ((before ++ bad :: after) :: others) t u = ret keep.
Proof.
  intros HW HH Hwf Hr Hbad.
  assert (E : decode W H t ((before ++ bad :: after) :: others) =
              decode W H t (before :: others)).
  { unfold decode.
    rewrite (decode_loop_malformed W H t before bad after [] HW HH Hwf Hr Hbad).
    reflexivity. }
  split; [exact E|]. split.
  - rewrite E. unfold decode. apply decode_loop_well_formed; assumption.
  - unfold postprocess. apply nms_returns.
Qed.

Lemma decode_stops_at_malformed_witness :
  decode 320 320 (1 # 2)
    [([[1 # 2; 1 # 2; 1 # 5; 1 # 5; 9 # 10; 1 # 10]] ++
      [1 # 2] :: [[1 # 4; 1 # 4; 1 # 5; 1 # 5; 1 # 10; 4 # 5]])%Q] =
  decode 320 320 (1 # 2) [[[1 # 2; 1 # 2; 1 # 5; 1 # 5; 9 # 10; 1 # 10]]%Q]
  /\ Decoded 320 320 (1 # 2) [[1 # 2; 1 # 2; 1 # 5; 1 # 5; 9 # 10; 1 # 10]]%Q
       (decode 320 320 (1 # 2)
          [([[1 # 2; 1 # 2; 1 # 5; 1 # 5; 9 # 10; 1 # 10]] ++
            [1 # 2] :: [[1 # 4; 1 # 4; 1 # 5; 1 # 5; 1 # 10; 4 # 5]])%Q])
  /\ exists keep,
       postprocess 320 320
         [([[1 # 2; 1 # 2; 1 # 5; 1 # 5; 9 # 10; 1 # 10]] ++
           [1 # 2] :: [[1 # 4; 1 # 4; 1 # 5; 1 # 5; 1 # 10; 4 # 5]])%Q]
         (1 # 2) (9 # 20) = ret keep.
Proof.
  apply decode_stops_at_malformed.
  - vm_compute. discriminate.
  - vm_compute. discriminate.
  - all_well_formed.
  - all_in_range.
  - unfold well_formed; simpl; lia.
Defined.

(** C4, as stated, fails: the well-formed row after a malformed one is not
    decoded, although it is when the malformed row is absent. *)
Lemma decode_malformed_loses_later_rows :
  decode 320 320 (1 # 2)
    [[[1 # 2; 1 # 2; 1 # 5; 1 # 5; 9 # 10; 1 # 10];
      [1 # 2];
      [1 # 4; 1 # 4; 1 # 5; 1 # 5; 1 # 10; 4 # 5]]%Q]
  = [mkDet 128 128 64 64 (9 # 10) 0]
  /\ decode 320 320 (1 # 2)
    [[[1 # 2; 1 # 2; 1 # 5; 1 # 5; 9 # 10; 1 # 10];
      [1 # 4; 1 # 4; 1 # 5; 1 # 5; 1 # 10; 4 # 5]]%Q]
  = [mkDet 128 128 64 64 (9 # 10) 0; mkDet 48 48 64 64 (4 # 5) 1]
  /\ decode 320 320 (1 # 2)
    [[[1 # 2; 1 # 2; 1 # 5; 1 # 5; 9 # 10; 1 # 10];
      [1 # 2];
      [1 # 4; 1 # 4; 1 # 5; 1 # 5; 1 # 10; 4 # 5]]%Q]
  <> decode 320 320 (1 # 2)
    [[[1 # 2; 1 # 2; 1 # 5; 1 # 5; 9 # 10; 1 # 10];
      [1 # 4; 1 # 4; 1 # 5; 1 # 5; 1 # 10; 4 # 5]]%Q].
Proof.
  split; [reflexivity|]. split; [reflexivity|].
  intro H. vm_compute in H. discriminate H.
Qed.

(** An empty [outputs], or an empty tensor, gives no detection and no error. *)
Example postprocess_empty (W H : Z) (t u : Q) :
  postprocess W H [] t u = ret [] /\ postprocess W H [[]] t u = ret [].
Proof. split; reflexivity. Qed.

(** ** [update_fps] *)

Section FpsWindow.

(** The clock reading of the last reset. *)
Variable t0 : Z.

Lemma update_fps_inside (c f now : Z) :
  Ticks.ticks_diff now t0 < 1000 ->
  update_fps (mkTracker c f t0) now = mkTracker (c + 1) f t0.
Proof.
  intro H. unfold update_fps. cbn [frame_count fps last_time].
  destruct (Z.leb_spec 1000 (Ticks.ticks_diff now t0)); [lia | reflexivity].
Qed.

Lemma update_fps_rollover (c f now : Z) :
  1000 <= Ticks.ticks_diff now t0 ->
  update_fps (mkTracker c f t0) now = mkTracker 0 (c + 1) now.
Proof.
  intro H. unfold update_fps. cbn [frame_count fps last_time].
  destruct (Z.leb_spec 1000 (Ticks.ticks_diff now t0)); [reflexivity | lia].
Qed.

(** Ticks inside the window only count. *)
Lemma ticks_inside (times : list Z) (c f : Z) :
  Forall (fun t => Ticks.ticks_diff t t0 < 1000) times ->
  fold_left update_fps times (mkTracker c f t0) =
  mkTracker (c + Z.of_nat (length times)) f t0.
Proof.
  intro H. revert c.
  induction H as [|t times Ht _ IH]; intro c; cbn [fold_left length].
  - f_equal. lia.
  - rewrite (update_fps_inside c f t Ht), IH. f_equal. lia.
Qed.

End FpsWindow.

(** C5, as amended. After a reset at [t0], thirty calls inside the window
    (less than 1000 ms after [t0]) followed by one call at [now], 1000 ms or
    more after [t0] (1001 ms in the scenario), leave a reported FPS of 31:
    the call that closes the window is counted in it.  The counter is then 0
    and the timestamp [now]. *)
Theorem fps_after_window (t0 f0 now : Z) (times : list Z) :
  length times = 30%nat ->
  Forall (fun t => Ticks.ticks_diff t t0 < 1000) times ->
  1000 <= Ticks.ticks_diff now t0 ->
  update_fps (fold_left update_fps times (mkTracker 0 f0 t0)) now =
  mkTracker 0 31 now.
Proof.
  intros Hlen Hin Hout.
  rewrite (ticks_inside t0 times 0 f0 Hin), Hlen.
  apply update_fps_rollover, Hout.
Qed.

Lemma fps_after_window_witness :
  update_fps
    (fold_left update_fps (map (fun k => 33 * Z.of_nat k) (seq 1 30))
       (mkTracker 0 0 0)) 1001 =
  mkTracker 0 31 1001.
Proof.
  apply fps_after_window.
  - reflexivity.
  - cbn [map seq]. repeat (constructor; [vm_compute; reflexivity|]). constructor.
  - vm_compute. discriminate.
Defined.

(** C5, as stated, fails: in the scenario the reported FPS is 31, not 30. *)
Lemma fps_scenario_reports_31 :
  fps (update_fps
         (fold_left update_fps (map (fun k => 33 * Z.of_nat k) (seq 1 30))
            (init_tracker 0)) 1001) = 31
  /\ fps (update_fps
            (fold_left update_fps (map (fun k => 33 * Z.of_nat k) (seq 1 30))
               (init_tracker 0)) 1001) <> 30.
Proof. split; vm_compute; [reflexivity | discriminate]. Qed.

(** The difference is right across one wrap-around of the clock. *)
Example ticks_diff_wraps :
  Ticks.ticks_diff 500 (Ticks.TICKS_PERIOD - 501) = 1001.
Proof. vm_compute. reflexivity. Qed.

(** ** The memory management of [run] *)

Lemma succ_mod_10 (c : Z) :
  ((c + 1) mod 10 = 0 /\ c mod 10 = 9)
  \/ ((c + 1) mod 10 <> 0 /\ (c + 1) mod 10 = c mod 10 + 1).
Proof. Z.div_mod_to_equations. lia. Qed.

(** The frames displayed since the last [gc.collect()] are the counter of
    [update_fps] modulo 10: no gap exceeds 10. *)
Lemma run_gaps_le (steps : list Step) (self : Tracker) (since : nat) :
  Z.of_nat since = frame_count self mod 10 ->
  Forall (fun g => (g <= 10)%nat) (gc_gaps since (snd (run self steps))).
Proof.
  revert self since.
  induction steps as [|s steps IH]; intros self since Hinv; cbn [run].
  - constructor.
  - assert (Hlt : (since < 10)%nat).
    { pose proof (Z.mod_pos_bound (frame_count self) 10). lia. }
    destruct s as [|now| |].
    + apply IH, Hinv.
    + specialize (IH (update_fps self now)).
      destruct (run (update_fps self now) steps) as [final evs].
      cbn [snd gc_gaps] in *.
      assert (Hnext : frame_count (update_fps self now) = 0 \/
                      frame_count (update_fps self now) = frame_count self + 1).
      { unfold update_fps.
        destruct (1000 <=? Ticks.ticks_diff now (last_time self)); cbn; auto. }
      destruct (Z.eqb_spec (frame_count (update_fps self now) mod 10) 0)
        as [E|E]; cbn [app gc_gaps].
      * constructor; [lia|]. apply IH. rewrite E. reflexivity.
      * apply IH.
        destruct Hnext as [H0|H1]; [rewrite H0 in E; contradiction|].
        rewrite H1 in *.
        destruct (succ_mod_10 (frame_count self)) as [[H _]|[_ H]];
          [contradiction|].
        rewrite H. lia.
    + cbn. constructor; [lia | constructor].
    + cbn. constructor; [lia | constructor].
Qed.

(** While [update_fps] does not reset its counter, the collections are
    exactly 10 frames apart. *)
Lemma run_gaps_eq (t0 : Z) (steps : list Step) (c f : Z) (since : nat) :
  Z.of_nat since = c mod 10 ->
  Forall (in_window t0) steps ->
  Forall (eq 10%nat) (gc_gaps since (snd (run (mkTracker c f t0) steps))).
Proof.
  intros Hinv Hwin. revert c since Hinv.
  induction Hwin as [|s steps Hs _ IH]; intros c since Hinv; cbn [run].
  - constructor.
  - destruct s as [|now| |]; cbn [in_window] in Hs; try contradiction.
    + apply IH, Hinv.
    + rewrite (update_fps_inside t0 c f now Hs).
      specialize (IH (c + 1)).
      destruct (run (mkTracker (c + 1) f t0) steps) as [final evs].
      cbn [snd gc_gaps frame_count] in *.
      destruct (succ_mod_10 c) as [[H0 H9]|[Hn Hs1]].
      * rewrite H0. cbn [Z.eqb app gc_gaps].
        constructor; [lia|]. apply IH. rewrite H0. reflexivity.
      * destruct (Z.eqb_spec ((c + 1) mod 10) 0) as [E|_]; [contradiction|].
        cbn [app]. apply IH. rewrite Hs1. lia.
Qed.

(** The trace of a loop never starts with a collection. *)
Lemma run_head (self : Tracker) (steps : list Step) :
  match snd (run self steps) with
  | GcCollect :: _ => False
  | _ => True
  end.
Proof.
  revert self. induction steps as [|s steps IH]; intro self; cbn [run].
  - exact I.
  - destruct s as [|now| |]; try exact I.
    + apply IH.
    + destruct (run (update_fps self now) steps). exact I.
Qed.

(** A collection follows a frame exactly when the counter is then a
    multiple of 10. *)
Lemma run_gc_flags (self : Tracker) (steps : list Step) :
  gc_flags (snd (run self steps))
  = map (fun c => c mod 10 =? 0) (counters self steps).
Proof.
  revert self. induction steps as [|s steps IH]; intro self;
    cbn [run counters].
  - reflexivity.
  - destruct s as [|now| |]; try reflexivity.
    + apply IH.
    + specialize (IH (update_fps self now)).
      pose proof (run_head (update_fps self now) steps) as Hhead.
      destruct (run (update_fps self now) steps) as [final evs].
      cbn [snd map] in *.
      destruct (frame_count (update_fps self now) mod 10 =? 0);
        cbn [app gc_flags].
      * rewrite IH. reflexivity.
      * rewrite IH. destruct evs as [|[| |] evs]; try reflexivity.
        contradiction.
Qed.

(** The frames displayed since the last collection are the counter
    modulo 10. *)
Lemma run_pending (steps : list Step) (self : Tracker) (since : nat) :
  Z.of_nat since = frame_count self mod 10 ->
  Z.of_nat (pending since (snd (run self steps)))
  = if existsb is_stop steps then 0
    else frame_count (fst (run self steps)) mod 10.
Proof.
  revert self since.
  induction steps as [|s steps IH]; intros self since Hinv;
    cbn [run existsb is_stop orb].
  - exact Hinv.
  - destruct s as [|now| |]; try reflexivity.
    + apply IH, Hinv.
    + specialize (IH (update_fps self now)).
      destruct (run (update_fps self now) steps) as [final evs].
      cbn [snd fst pending] in *.
      assert (Hnext : frame_count (update_fps self now) = 0 \/
                      frame_count (update_fps self now) = frame_count self + 1).
      { unfold update_fps.
        destruct (1000 <=? Ticks.ticks_diff now (last_time self)); cbn; auto. }
      destruct (Z.eqb_spec (frame_count (update_fps self now) mod 10) 0)
        as [E|E]; cbn [app pending].
      * apply IH. rewrite E. reflexivity.
      * apply IH.
        destruct Hnext as [H0|H1]; [rewrite H0 in E; contradiction|].
        rewrite H1 in *.
        destruct (succ_mod_10 (frame_count self)) as [[H _]|[_ H]];
          [contradiction|].
        rewrite H. lia.
Qed.

(** C6, as amended. In every execution of the loop of [run], started from
    the state [__init__] leaves, a collection is requested after a processed
    frame exactly when the counter of [update_fps], which goes back to 0 at
    the end of every FPS window, is then a multiple of 10.  So at most 10
    frames are processed between two consecutive requests (the one in
    [finally] included), and at any time fewer than 10 frames have been
    processed since the last request. *)
Theorem gc_within_10_frames (t0 : Z) (steps : list Step) :
  gc_flags (snd (run (init_tracker t0) steps))
  = map (fun c => c mod 10 =? 0) (counters (init_tracker t0) steps)
  /\ Forall (fun g => (g <= 10)%nat)
       (gc_gaps 0 (snd (run (init_tracker t0) steps)))
  /\ (pending 0 (snd (run (init_tracker t0) steps)) < 10)%nat.
Proof.
  split; [apply run_gc_flags|].
  split; [apply run_gaps_le; reflexivity|].
  pose proof (run_pending steps (init_tracker t0) 0 eq_refl) as H.
  pose proof (Z.mod_pos_bound
                (frame_count (fst (run (init_tracker t0) steps))) 10).
  destruct (existsb is_stop steps); lia.
Qed.

(** Inside one FPS window the gap is exactly 10. *)
Lemma gc_every_10_inside_window (t0 : Z) (steps : list Step) :
  Forall (in_window t0) steps ->
  Forall (eq 10%nat) (gc_gaps 0 (snd (run (init_tracker t0) steps))).
Proof. intro H. apply run_gaps_eq; [reflexivity | exact H]. Qed.

(** C6, as stated, fails: at 25 frames a second the collections follow the
    frames 10, 20, 25, 35, 45 and 50. *)
Lemma gc_gap_of_5 :
  gc_gaps 0
    (snd (run (init_tracker 0)
            (map (fun k => Frame (40 * Z.of_nat k)) (seq 1 50))))
  = [10; 10; 5; 10; 10; 5]%nat
  /\ ~ Forall (eq 10%nat)
       (gc_gaps 0
          (snd (run (init_tracker 0)
                  (map (fun k => Frame (40 * Z.of_nat k)) (seq 1 50))))).
Proof.
  assert (E : gc_gaps 0
                (snd (run (init_tracker 0)
                        (map (fun k => Frame (40 * Z.of_nat k)) (seq 1 50))))
              = [10; 10; 5; 10; 10; 5]%nat) by (vm_compute; reflexivity).
  split; [exact E|]. rewrite E. intro H.
  inversion H as [|? ? _ H1]; subst.
  inversion H1 as [|? ? _ H2]; subst.
  inversion H2 as [|? ? H5 _]; subst.
  discriminate H5.
Qed.

(** ** Scenarios *)

(** Scenario 2 of the specification: two boxes of one class with an IoU of
    0.9, threshold 0.5; only the more confident one is kept. *)
Example nms_scenario_2 :
  iou (mkDet 0 0 10 10 (4 # 5) 0) (mkDet 0 0 10 9 (9 # 10) 0) = ret (90 # 100)
  /\ nms [mkDet 0 0 10 10 (4 # 5) 0; mkDet 0 0 10 9 (9 # 10) 0] (1 # 2)
     = ret [mkDet 0 0 10 9 (9 # 10) 0].
Proof. split; reflexivity. Qed.

(** The same box twice, under two classes: both are kept. *)
Example nms_two_classes :
  iou (mkDet 0 0 10 10 (4 # 5) 0) (mkDet 0 0 10 10 (9 # 10) 1) = ret (100 # 100)
  /\ nms [mkDet 0 0 10 10 (4 # 5) 0; mkDet 0 0 10 10 (9 # 10) 1] (1 # 2)
     = ret [mkDet 0 0 10 10 (9 # 10) 1; mkDet 0 0 10 10 (4 # 5) 0].
Proof. split; reflexivity. Qed.

(** Equal confidences keep the order of the input. *)
Example sort_by_conf_ties :
  sort_by_conf [mkDet 0 0 1 1 (1 # 2) 0; mkDet 5 5 1 1 (9 # 10) 1;
                mkDet 9 9 1 1 (1 # 2) 2]
  = [mkDet 5 5 1 1 (9 # 10) 1; mkDet 0 0 1 1 (1 # 2) 0; mkDet 9 9 1 1 (1 # 2) 2].
Proof. reflexivity. Qed.

(** * Further properties *)

(** ** [iou]: its range and its geometry *)

Lemma inter_le_area_l (box1 box2 : Detection) :
  proper_box box1 -> inter_area box1 box2 <= box_area box1.
Proof.
  intros [Hw Hh]. unfold inter_area, box_area. cbn.
  apply Z.mul_le_mono_nonneg; lia.
Qed.

Lemma inter_le_union (box1 box2 : Detection) :
  proper_box box1 -> proper_box box2 ->
  inter_area box1 box2 <= union_area box1 box2.
Proof.
  intros H1 H2.
  pose proof (inter_le_area_l box1 box2 H1).
  pose proof (inter_le_area_l box2 box1 H2) as H'.
  rewrite (inter_area_comm box2 box1) in H'.
  unfold union_area. lia.
Qed.

(** What [iou] returns is never negative. *)
Lemma iou_nonneg (box1 box2 : Detection) :
  exists q, iou box1 box2 = ret q /\ (0 <= q)%Q.
Proof.
  unfold iou. destruct (Z.ltb_spec 0 (union_area box1 box2)) as [Hu|Hu].
  - unfold PyFloat.truediv.
    destruct (Z.eqb_spec (union_area box1 box2) 0); [lia|].
    eexists. split; [reflexivity|].
    apply Qle_shift_div_l.
    + change 0%Q with (inject_Z 0). rewrite <- Zlt_Qlt. exact Hu.
    + rewrite Qmult_0_l. change 0%Q with (inject_Z 0). rewrite <- Zle_Qle.
      apply inter_area_nonneg.
  - exists 0%Q. split; [reflexivity | apply Qle_refl].
Qed.

(** A box of negative width or height meets nothing. *)
Lemma inter_area_improper (box1 box2 : Detection) :
  ~ proper_box box1 -> inter_area box1 box2 = 0.
Proof.
  unfold proper_box, inter_area. cbn. intro H.
  destruct (Z_lt_le_dec (det_w box1) 0) as [Hw|Hw].
  - replace (Z.max 0 (Z.min _ _ - Z.max (det_x box1) _)) with 0 by lia.
    reflexivity.
  - assert (Hh : det_h box1 < 0) by lia.
    rewrite Z.mul_comm.
    replace (Z.max 0 (Z.min _ _ - Z.max (det_y box1) _)) with 0 by lia.
    reflexivity.
Qed.

Lemma proper_box_dec (d : Detection) : {proper_box d} + {~ proper_box d}.
Proof.
  unfold proper_box.
  destruct (Z_le_gt_dec 0 (det_w d)); destruct (Z_le_gt_dec 0 (det_h d));
    (left; lia) || (right; lia).
Qed.

(** In every case the intersection is at most the union, when the latter is
    positive. *)
Lemma inter_le_union_pos (box1 box2 : Detection) :
  0 < union_area box1 box2 -> inter_area box1 box2 <= union_area box1 box2.
Proof.
  intro Hu.
  destruct (proper_box_dec box1) as [H1|H1].
  - destruct (proper_box_dec box2) as [H2|H2].
    + apply inter_le_union; assumption.
    + rewrite (inter_area_comm box1 box2), (inter_area_improper box2 box1 H2).
      lia.
  - rewrite (inter_area_improper box1 box2 H1). lia.
Qed.

(** X1. Whatever the two boxes, [iou] returns a value between 0 and 1. *)
Theorem iou_in_unit_interval (box1 box2 : Detection) :
  exists q, iou box1 box2 = ret q /\ (0 <= q)%Q /\ (q <= 1)%Q.
Proof.
  destruct (iou_nonneg box1 box2) as [q [Hq H0]].
  exists q. split; [exact Hq|]. split; [exact H0|].
  unfold iou in Hq. destruct (Z.ltb_spec 0 (union_area box1 box2)) as [Hu|Hu].
  - unfold PyFloat.truediv in Hq.
    destruct (Z.eqb_spec (union_area box1 box2) 0); [lia|].
    injection Hq as <-.
    apply Qle_shift_div_r.
    + change 0%Q with (inject_Z 0). rewrite <- Zlt_Qlt. exact Hu.
    + rewrite Qmult_1_l, <- Zle_Qle. apply inter_le_union_pos, Hu.
  - injection Hq as <-. discriminate.
Qed.

(** X2. When a box of width and height that are not negative lies inside
    another box, of positive area, their IoU is the quotient of the two
    areas. *)
Theorem iou_contained (inner outer : Detection) :
  proper_box inner ->
  det_x outer <= det_x inner ->
  det_x inner + det_w inner <= det_x outer + det_w outer ->
  det_y outer <= det_y inner ->
  det_y inner + det_h inner <= det_y outer + det_h outer ->
  0 < box_area outer ->
  iou inner outer = ret (inject_Z (box_area inner) / inject_Z (box_area outer))%Q.
Proof.
  intros [Hw Hh] Hx1 Hx2 Hy1 Hy2 Ha.
  assert (Hi : inter_area inner outer = box_area inner).
  { unfold inter_area, box_area. cbn. f_equal; lia. }
  assert (Hu : union_area inner outer = box_area outer).
  { unfold union_area. rewrite Hi. lia. }
  unfold iou. rewrite Hu, Hi.
  destruct (Z.ltb_spec 0 (box_area outer)); [|lia].
  unfold PyFloat.truediv.
  destruct (Z.eqb_spec (box_area outer) 0); [lia | reflexivity].
Qed.

Lemma iou_contained_witness :
  iou (mkDet 2 2 5 4 (1 # 2) 0) (mkDet 0 0 10 10 (9 # 10) 1) = ret (20 # 100).
Proof.
  apply (iou_contained (mkDet 2 2 5 4 (1 # 2) 0) (mkDet 0 0 10 10 (9 # 10) 1));
    unfold proper_box, box_area; simpl; lia.
Defined.

(** X3. The IoU of a box of positive width and height with itself is 1. *)
Theorem iou_self (box : Detection) :
  0 < det_w box -> 0 < det_h box ->
  exists q, iou box box = ret q /\ (q == 1)%Q.
Proof.
  intros Hw Hh.
  assert (Ha : 0 < box_area box) by (unfold box_area; apply Z.mul_pos_pos; assumption).
  assert (Hi : inter_area box box = box_area box).
  { unfold inter_area, box_area. cbn. f_equal; lia. }
  assert (Hu : union_area box box = box_area box).
  { unfold union_area. rewrite Hi. lia. }
  unfold iou. rewrite Hu, Hi.
  destruct (Z.ltb_spec 0 (box_area box)); [|lia].
  unfold PyFloat.truediv.
  destruct (Z.eqb_spec (box_area box) 0); [lia|].
  eexists. split; [reflexivity|].
  apply Qmult_inv_r. intro H0.
  unfold Qeq in H0. cbn in H0. lia.
Qed.

Lemma iou_self_witness :
  exists q, iou (mkDet 3 4 10 20 (1 # 2) 0) (mkDet 3 4 10 20 (1 # 2) 0) = ret q
            /\ (q == 1)%Q.
Proof. apply iou_self; reflexivity. Defined.

(** Boxes without a common pixel have no intersection. *)
Lemma inter_area_apart (box1 box2 : Detection) :
  det_x box1 + det_w box1 <= det_x box2 \/
  det_x box2 + det_w box2 <= det_x box1 \/
  det_y box1 + det_h box1 <= det_y box2 \/
  det_y box2 + det_h box2 <= det_y box1 ->
  inter_area box1 box2 = 0.
Proof.
  unfold inter_area. cbn. intros [H|[H|[H|H]]].
  - replace (Z.max 0 (Z.min _ _ - Z.max (det_x box1) _)) with 0 by lia.
    reflexivity.
  - replace (Z.max 0 (Z.min _ _ - Z.max (det_x box1) _)) with 0 by lia.
    reflexivity.
  - rewrite Z.mul_comm.
    replace (Z.max 0 (Z.min _ _ - Z.max (det_y box1) _)) with 0 by lia.
    reflexivity.
  - rewrite Z.mul_comm.
    replace (Z.max 0 (Z.min _ _ - Z.max (det_y box1) _)) with 0 by lia.
    reflexivity.
Qed.

Lemma iou_no_intersection (box1 box2 : Detection) :
  inter_area box1 box2 = 0 ->
  exists q, iou box1 box2 = ret q /\ (q == 0)%Q.
Proof.
  intro Hi. unfold iou. rewrite Hi.
  destruct (Z.ltb_spec 0 (union_area box1 box2)).
  - unfold PyFloat.truediv.
    destruct (Z.eqb_spec (union_area box1 box2) 0); [lia|].
    eexists. split; [reflexivity|].
    unfold Qdiv. apply Qmult_0_l.
  - exists 0%Q. split; reflexivity.
Qed.

(** X4. Two boxes one of which ends where the other begins, or before, in
    [x] or in [y], have an IoU of 0, and neither suppresses the other under a
    positive threshold. *)
Theorem iou_apart (u : Q) (box1 box2 : Detection) :
  det_x box1 + det_w box1 <= det_x box2 \/
  det_x box2 + det_w box2 <= det_x box1 \/
  det_y box1 + det_h box1 <= det_y box2 \/
  det_y box2 + det_h box2 <= det_y box1 ->
  (exists q, iou box1 box2 = ret q /\ (q == 0)%Q)
  /\ ((0 < u)%Q -> retained u box1 box2 = ret true).
Proof.
  intro H.
  destruct (iou_no_intersection box1 box2 (inter_area_apart box1 box2 H))
    as [q [Hq H0]].
  split; [exists q; auto|].
  intro Hu. unfold retained. rewrite Hq. cbn.
  assert (Hlt : PyFloat.ltb q u = true) by (apply ltb_lt; rewrite H0; exact Hu).
  rewrite Hlt. reflexivity.
Qed.

Lemma iou_apart_witness :
  (exists q, iou (mkDet 0 0 10 10 (1 # 2) 0) (mkDet 10 0 10 10 (9 # 10) 0) = ret q
             /\ (q == 0)%Q)
  /\ ((0 < 1 # 2)%Q ->
      retained (1 # 2) (mkDet 0 0 10 10 (1 # 2) 0) (mkDet 10 0 10 10 (9 # 10) 0)
      = ret true).
Proof. apply iou_apart. left. simpl. lia. Defined.

(** X5. Moving both boxes by the same offset leaves their IoU unchanged. *)
Theorem iou_shift (dx dy : Z) (box1 box2 : Detection) :
  iou (shift dx dy box1) (shift dx dy box2) = iou box1 box2.
Proof.
  assert (Hi : inter_area (shift dx dy box1) (shift dx dy box2)
               = inter_area box1 box2).
  { unfold inter_area, shift. cbn. f_equal; lia. }
  unfold iou, union_area. rewrite Hi. reflexivity.
Qed.

(** ** [nms]: shape of the result *)

Lemma subseq_refl {A} (l : list A) : subseq l l.
Proof. induction l; constructor; assumption. Qed.

Lemma subseq_filter {A} (f : A -> bool) (l : list A) : subseq (filter f l) l.
Proof.
  induction l as [|a l IH]; simpl; [constructor|].
  destruct (f a); constructor; exact IH.
Qed.

Lemma subseq_trans {A} (l1 l2 l3 : list A) :
  subseq l1 l2 -> subseq l2 l3 -> subseq l1 l3.
Proof.
  intros H12 H23. revert l1 H12.
  induction H23 as [|a l2 l3 _ IH|a l2 l3 _ IH]; intros l1 H12.
  - exact H12.
  - constructor. apply IH, H12.
  - inversion H12; subst.
    + constructor. apply IH. assumption.
    + apply subseq_take. apply IH. assumption.
Qed.

Lemma subseq_length {A} (l1 l2 : list A) :
  subseq l1 l2 -> (length l1 <= length l2)%nat.
Proof. induction 1; simpl; lia. Qed.

Lemma subseq_incl {A} (l1 l2 : list A) : subseq l1 l2 -> incl l1 l2.
Proof.
  induction 1 as [|a l1 l2 _ IH|a l1 l2 _ IH]; intros x Hx.
  - exact Hx.
  - right. apply IH, Hx.
  - destruct Hx as [<-|Hx]; [left; reflexivity | right; apply IH, Hx].
Qed.

Lemma subseq_sorted {A} (R : A -> A -> Prop) (l1 l2 : list A) :
  subseq l1 l2 -> StronglySorted R l2 -> StronglySorted R l1.
Proof.
  induction 1 as [|a l1 l2 Hs IH|a l1 l2 Hs IH]; intro H2.
  - constructor.
  - inversion H2; subst. apply IH. assumption.
  - inversion H2 as [|? ? Hs2 Hall]; subst.
    constructor; [apply IH, Hs2|].
    rewrite Forall_forall in *. intros x Hx.
    apply Hall, (subseq_incl _ _ Hs), Hx.
Qed.

(** The result of the loop started on an empty list fixes the result for
    every list built so far. *)
Lemma nms_loop_from_nil (u : Q) (keep l out : list Detection) :
  nms_loop u [] l = ret out -> nms_loop u keep l = ret (keep ++ out).
Proof.
  intro H. destruct (nms_loop_acc u l) as [out' Hout].
  rewrite (Hout []) in H. injection H as <-. apply Hout.
Qed.

(** X6. [nms] returns the stably sorted input with some detections left
    out: the result is in descending order of confidence and is not longer
    than the input. *)
Theorem nms_subseq_of_sorted (detections : list Detection) (u : Q) :
  exists keep,
    nms detections u = ret keep
    /\ subseq keep (sort_by_conf detections)
    /\ StronglySorted conf_ge keep
    /\ (length keep <= length detections)%nat.
Proof.
  rewrite nms_unfold.
  destruct (@nms_loop_rel u (fun l out => subseq out l))
    with (detections := sort_by_conf detections) (keep := @nil Detection)
    as [keep [E Hsub]].
  - constructor.
  - intros best rest out Hout. apply subseq_take.
    eapply subseq_trans; [exact Hout | apply subseq_filter].
  - exists keep. split; [exact E|]. split; [exact Hsub|]. split.
    + eapply subseq_sorted; [exact Hsub | apply sort_by_conf_sorted].
    + rewrite <- (Permutation_length (sort_by_conf_perm detections)).
      apply subseq_length, Hsub.
Qed.

Lemma nms_best_of_class (detections : list Detection) (u : Q) :
  exists keep,
    nms detections u = ret keep
    /\ forall d, In d detections ->
       exists k, In k keep /\ det_cls k = det_cls d
                 /\ (det_conf d <= det_conf k)%Q.
Proof.
  rewrite nms_unfold.
  destruct (@nms_loop_rel u
              (fun l out => StronglySorted conf_ge l ->
                 forall d, In d l ->
                 exists k, In k out /\ det_cls k = det_cls d /\ conf_ge k d))
    with (detections := sort_by_conf detections) (keep := @nil Detection)
    as [keep [E H]].
  - intros _ d [].
  - intros best rest out IH Hs d Hd.
    inversion Hs as [|? ? Hs' Hall]; subst.
    destruct Hd as [<-|Hd].
    { exists best. split; [left; reflexivity|]. split; [reflexivity|].
      apply Qle_refl. }
    destruct (passes u best d) eqn:Ep.
    + destruct (IH (StronglySorted_filter _ _ _ Hs') d) as [k [Hk Hkd]].
      { apply filter_In. auto. }
      exists k. split; [right; exact Hk | exact Hkd].
    + apply passes_false_suppresses in Ep. destruct Ep as [Hc _].
      exists best. split; [left; reflexivity|]. split; [exact Hc|].
      rewrite Forall_forall in Hall. apply Hall, Hd.
  - exists keep. split; [exact E|].
    intros d Hd. apply (H (sort_by_conf_sorted detections)).
    eapply Permutation_in; [apply Permutation_sym, sort_by_conf_perm | exact Hd].
Qed.

(** X7. No class is lost: for every detection of the input, [nms] keeps a
    detection of the same class that is at least as confident. *)
Theorem nms_keeps_best_of_class (detections : list Detection) (u : Q) :
  exists keep,
    nms detections u = ret keep
    /\ forall d, In d detections ->
       exists k, In k keep /\ det_cls k = det_cls d
                 /\ (det_conf d <= det_conf k)%Q.
Proof. apply nms_best_of_class. Qed.

(** ** [nms]: classes do not interfere *)

Lemma insert_desc_front (d : Detection) (l : list Detection) :
  Forall (conf_ge d) l -> insert_desc d l = d :: l.
Proof.
  intro H. destruct l as [|e l]; [reflexivity|].
  inversion H as [|? ? He _]; subst.
  cbn [insert_desc]. apply ltb_ge in He. rewrite He. reflexivity.
Qed.

(** Inserting into a sorted list and filtering commute. *)
Lemma insert_desc_filter (f : Detection -> bool) (d : Detection)
    (l : list Detection) :
  StronglySorted conf_ge l ->
  filter f (insert_desc d l) =
  if f d then insert_desc d (filter f l) else filter f l.
Proof.
  induction 1 as [|e l Hs IH Hall]; [cbn; destruct (f d); reflexivity|].
  cbn [insert_desc].
  destruct (PyFloat.ltb (det_conf d) (det_conf e)) eqn:E.
  - cbn [filter]. rewrite IH.
    destruct (f e), (f d); cbn [insert_desc]; try rewrite E; reflexivity.
  - change (filter f (d :: e :: l))
      with (if f d then d :: filter f (e :: l) else filter f (e :: l)).
    destruct (f d); [|reflexivity].
    symmetry. apply insert_desc_front.
    apply Forall_forall. intros x Hx. apply filter_In in Hx.
    destruct Hx as [Hx _]. apply ltb_ge in E. unfold conf_ge.
    destruct Hx as [<-|Hx]; [exact E|].
    rewrite Forall_forall in Hall. eapply Qle_trans; [apply Hall, Hx | exact E].
Qed.

Lemma sort_by_conf_filter (f : Detection -> bool) (l : list Detection) :
  sort_by_conf (filter f l) = filter f (sort_by_conf l).
Proof.
  induction l as [|d l IH]; [reflexivity|].
  cbn [sort_by_conf fold_right filter]. fold (sort_by_conf l).
  rewrite (insert_desc_filter f d (sort_by_conf l) (sort_by_conf_sorted l)).
  destruct (f d); [|exact IH].
  cbn [sort_by_conf fold_right]. fold (sort_by_conf (filter f l)).
  rewrite IH. reflexivity.
Qed.

Lemma filter_comm {A} (f g : A -> bool) (l : list A) :
  filter f (filter g l) = filter g (filter f l).
Proof.
  induction l as [|a l IH]; [reflexivity|]. cbn [filter].
  destruct (f a) eqn:Ef, (g a) eqn:Eg; cbn [filter];
    rewrite ?Ef, ?Eg, IH; reflexivity.
Qed.

(** A detection of another class lets everything of class [c] pass. *)
Lemma of_class_passes (u : Q) (c : nat) (best : Detection) (l : list Detection) :
  det_cls best <> c ->
  filter (passes u best) (of_class c l) = of_class c l.
Proof.
  intro Hne. apply forallb_filter_id, forallb_forall.
  intros x Hx. apply filter_In in Hx. destruct Hx as [_ Hx].
  apply Nat.eqb_eq in Hx. apply passes_spec.
  destruct (iou_returns best x) as [q Hq].
  exists q. split; [exact Hq|]. right. congruence.
Qed.

(** X8. Classes do not interfere: what [nms] keeps of the class [c] is what
    it keeps when given the detections of the class [c] alone. *)
Theorem nms_per_class (detections : list Detection) (u : Q) (c : nat) :
  exists keep,
    nms detections u = ret keep
    /\ nms (of_class c detections) u = ret (of_class c keep).
Proof.
  rewrite !nms_unfold. unfold of_class at 1. rewrite sort_by_conf_filter.
  fold (of_class c (sort_by_conf detections)).
  destruct (@nms_loop_rel u
              (fun l out => nms_loop u [] (of_class c l) = ret (of_class c out)))
    with (detections := sort_by_conf detections) (keep := @nil Detection)
    as [keep [E H]].
  - cbn. simp nms_loop. reflexivity.
  - intros best rest out IH. unfold of_class in *. cbn [filter].
    destruct (Nat.eqb_spec (det_cls best) c) as [Hc|Hc].
    + rewrite nms_loop_cons, filter_comm.
      apply (nms_loop_from_nil u ([] ++ [best]) _ _ IH).
    + rewrite filter_comm in IH.
      pose proof (of_class_passes u c best rest Hc) as Hp.
      unfold of_class in Hp. rewrite Hp in IH. exact IH.
  - exists keep. split; [exact E | exact H].
Qed.

(** ** [nms]: the two ends of the threshold *)

Lemma ForallOrdPairs_NoDup_map {A B} (f : A -> B) (l : list A) :
  ForallOrdPairs (fun a b => f a <> f b) l -> NoDup (map f l).
Proof.
  induction 1 as [|a l Hall _ IH]; cbn [map]; constructor; [|exact IH].
  intro Hin. apply in_map_iff in Hin. destruct Hin as [x [Hfx Hx]].
  rewrite Forall_forall in Hall. apply (Hall x Hx). congruence.
Qed.

(** X9. With a threshold of 0 or less [nms] keeps exactly one detection of
    every class of the input, one that no detection of the class exceeds in
    confidence. *)
Theorem nms_threshold_zero (detections : list Detection) (u : Q) :
  (u <= 0)%Q ->
  exists keep,
    nms detections u = ret keep
    /\ NoDup (map det_cls keep)
    /\ forall d, In d detections ->
       exists k, In k keep /\ det_cls k = det_cls d
                 /\ (det_conf d <= det_conf k)%Q.
Proof.
  intro Hu.
  destruct (nms_best_of_class detections u) as [keep [E Hbest]].
  exists keep. split; [exact E|]. split; [|exact Hbest].
  rewrite nms_unfold in E.
  destruct (nms_loop_post u (sort_by_conf detections)) as [keep' [E' Hpost]].
  assert (keep' = keep) by (unfold ret in *; congruence). subst keep'.
  apply ForallOrdPairs_NoDup_map.
  pose proof (post_pairs _ _ _ Hpost) as Hpairs. clear -Hpairs Hu.
  induction Hpairs as [|a l Hall _ IH]; constructor; [|exact IH].
  eapply Forall_impl; [|exact Hall].
  intros b Hp. apply passes_spec in Hp. destruct Hp as [q [Hq [Hlt|Hne]]].
  - exfalso. destruct (iou_nonneg a b) as [q' [Hq' H0]].
    assert (q' = q) by (unfold ret in *; congruence). subst q'.
    apply (Qlt_irrefl q). eapply Qlt_le_trans; [exact Hlt|].
    eapply Qle_trans; eassumption.
  - exact Hne.
Qed.

Lemma nms_threshold_zero_witness :
  exists keep,
    nms [mkDet 0 0 10 10 (1 # 2) 0; mkDet 50 50 10 10 (9 # 10) 0;
         mkDet 0 0 10 10 (7 # 10) 1] 0 = ret keep
    /\ NoDup (map det_cls keep)
    /\ forall d,
       In d [mkDet 0 0 10 10 (1 # 2) 0; mkDet 50 50 10 10 (9 # 10) 0;
             mkDet 0 0 10 10 (7 # 10) 1] ->
       exists k, In k keep /\ det_cls k = det_cls d
                 /\ (det_conf d <= det_conf k)%Q.
Proof. apply nms_threshold_zero. discriminate. Defined.

(** X10. With a threshold above 1 [nms] suppresses nothing: it returns the
    input, stably sorted by descending confidence. *)
Theorem nms_threshold_above_one (detections : list Detection) (u : Q) :
  (1 < u)%Q ->
  nms detections u = ret (sort_by_conf detections)
  /\ Permutation (sort_by_conf detections) detections.
Proof.
  intro Hu. split; [|apply sort_by_conf_perm].
  rewrite nms_unfold. apply nms_loop_fixed.
  generalize (sort_by_conf detections). intro l.
  induction l as [|a l IH]; constructor; [|exact IH].
  apply Forall_forall. intros b _. apply passes_spec.
  destruct (iou_nonneg a b) as [q [Hq _]].
  exists q. split; [exact Hq|]. left.
  unfold iou in Hq.
  destruct (Z.ltb_spec 0 (union_area a b)) as [Hpos|Hpos].
  - unfold PyFloat.truediv in Hq.
    destruct (Z.eqb_spec (union_area a b) 0); [lia|].
    injection Hq as <-.
    eapply Qle_lt_trans; [|exact Hu].
    apply Qle_shift_div_r.
    + change 0%Q with (inject_Z 0). rewrite <- Zlt_Qlt. exact Hpos.
    + rewrite Qmult_1_l, <- Zle_Qle. apply inter_le_union_pos, Hpos.
  - injection Hq as <-. eapply Qlt_trans; [|exact Hu]. reflexivity.
Qed.

Lemma nms_threshold_above_one_witness :
  nms [mkDet 0 0 10 10 (1 # 2) 0; mkDet 0 0 10 10 (9 # 10) 0] (11 # 10)
  = ret (sort_by_conf [mkDet 0 0 10 10 (1 # 2) 0; mkDet 0 0 10 10 (9 # 10) 0])
  /\ Permutation
       (sort_by_conf [mkDet 0 0 10 10 (1 # 2) 0; mkDet 0 0 10 10 (9 # 10) 0])
       [mkDet 0 0 10 10 (1 # 2) 0; mkDet 0 0 10 10 (9 # 10) 0].
Proof. apply nms_threshold_above_one. reflexivity. Defined.

(** ** [nms]: the order of the input *)

(** Two lists in descending order with the same members, in which equal
    confidence means equal detection, are the same list. *)
Lemma sorted_perm_eq (l1 l2 : list Detection) :
  (forall a b, In a l1 -> In b l1 ->
               (det_conf a == det_conf b)%Q -> a = b) ->
  StronglySorted conf_ge l1 -> StronglySorted conf_ge l2 ->
  Permutation l1 l2 -> l1 = l2.
Proof.
  revert l2. induction l1 as [|a l1 IH]; intros l2 Hinj H1 H2 Hp.
  - apply Permutation_nil in Hp. symmetry. exact Hp.
  - destruct l2 as [|b l2].
    { apply Permutation_sym, Permutation_nil in Hp. discriminate. }
    inversion H1 as [|? ? H1' Hall1]; subst.
    inversion H2 as [|? ? H2' Hall2]; subst.
    rewrite Forall_forall in Hall1, Hall2.
    assert (Hab : a = b).
    { assert (Ha : In a (b :: l2))
        by (apply (Permutation_in _ Hp); left; reflexivity).
      assert (Hb : In b (a :: l1))
        by (apply (Permutation_in _ (Permutation_sym Hp)); left; reflexivity).
      destruct Ha as [Ha|Ha]; [symmetry; exact Ha|].
      destruct Hb as [Hb|Hb]; [exact Hb|].
      apply Hinj; [left; reflexivity | right; exact Hb |].
      apply Qle_antisym; [apply Hall2, Ha | apply Hall1, Hb]. }
    subst b. f_equal. apply IH.
    + intros x y Hx Hy. apply Hinj; right; assumption.
    + exact H1'.
    + exact H2'.
    + eapply Permutation_cons_inv. exact Hp.
Qed.

(** X11. When no two different detections of the input have the same
    confidence, the result of [nms] does not depend on the order of the
    input. *)
Theorem nms_order_independent (detections reordered : list Detection) (u : Q) :
  Permutation detections reordered ->
  (forall a b, In a detections -> In b detections ->
               (det_conf a == det_conf b)%Q -> a = b) ->
  nms detections u = nms reordered u.
Proof.
  intros Hp Hinj. rewrite !nms_unfold. f_equal.
  apply sorted_perm_eq.
  - intros a b Ha Hb. apply Hinj;
      eapply Permutation_in; try apply sort_by_conf_perm; assumption.
  - apply sort_by_conf_sorted.
  - apply sort_by_conf_sorted.
  - eapply perm_trans; [apply sort_by_conf_perm|].
    eapply perm_trans; [exact Hp|].
    apply Permutation_sym, sort_by_conf_perm.
Qed.

Lemma nms_order_independent_witness :
  nms [mkDet 0 0 10 10 (1 # 2) 0; mkDet 1 0 10 10 (9 # 10) 0] (1 # 2)
  = nms [mkDet 1 0 10 10 (9 # 10) 0; mkDet 0 0 10 10 (1 # 2) 0] (1 # 2).
Proof.
  apply nms_order_independent.
  - apply perm_swap.
  - intros a b [<-|[<-|[]]] [<-|[<-|[]]] H;
      try reflexivity; vm_compute in H; discriminate H.
Defined.

(** With equal confidences the order of the input decides which detection
    is kept. *)
Example nms_ties_depend_on_order :
  nms [mkDet 0 0 10 10 (1 # 2) 0; mkDet 1 0 10 10 (1 # 2) 0] (1 # 2)
  = ret [mkDet 0 0 10 10 (1 # 2) 0]
  /\ nms [mkDet 1 0 10 10 (1 # 2) 0; mkDet 0 0 10 10 (1 # 2) 0] (1 # 2)
     = ret [mkDet 1 0 10 10 (1 # 2) 0].
Proof. split; reflexivity. Qed.

(** ** The decoder on any tensor *)

Lemma index_bound (v : Q) (l : list Q) (i : nat) :
  index v l = ret i -> (i < length l)%nat.
Proof.
  revert i. induction l as [|x xs IH]; intros i H; cbn [index] in H.
  - discriminate.
  - destruct (PyFloat.eqb x v).
    + injection H as <-. simpl. lia.
    + destruct (index v xs) as [j|]; [|discriminate].
      injection H as <-. specialize (IH j eq_refl). simpl. lia.
Qed.

(** What the body of the loop appends: a detection at or above the
    threshold, of a class that is a position among the class scores of the
    row, with a clamped box. *)
Lemma decode_pred_emits (W H : Z) (t : Q) (pred : RawPrediction) (d : Detection) :
  decode_pred W H t pred = ret (Some d) ->
  (t <= det_conf d)%Q
  /\ (det_cls d < length pred - 4)%nat
  /\ exists corners,
       (det_x d, det_y d, det_w d, det_h d) = clamp_box W H corners.
Proof.
  destruct pred as [|xc [|yc [|wd [|ht [|s ss]]]]]; try discriminate.
  unfold decode_pred. cbn [firstn skipn unpack4 bind ret].
  destruct (py_max (s :: ss)) as [m|] eqn:Em; [|discriminate].
  cbn [bind].
  destruct (PyFloat.ltb m t) eqn:Et; [discriminate|].
  destruct (index m (s :: ss)) as [i|] eqn:Ei; [|discriminate].
  cbn [bind].
  destruct (corner_ints W H xc yc wd ht) as [corners|]; [|discriminate].
  cbn [bind].
  destruct (clamp_box W H corners) as [[[x y] w] h] eqn:Eb.
  intro E. injection E as <-. cbn [det_conf det_cls det_x det_y det_w det_h].
  split; [apply ltb_ge, Et|]. split.
  - apply index_bound in Ei. cbn [length] in *. lia.
  - exists corners. symmetry. exact Eb.
Qed.

(** On a row that is decoded the box is the one [pixel_box] gives. *)
Lemma decode_pred_box (W H : Z) (t : Q) (xc yc wd ht : Q) (scores : list Q)
    (d : Detection) :
  decode_pred W H t (xc :: yc :: wd :: ht :: scores) = ret (Some d) ->
  (det_x d, det_y d, det_w d, det_h d) = pixel_box W H xc yc wd ht.
Proof.
  unfold decode_pred. cbn [firstn skipn unpack4 bind ret].
  destruct (py_max scores) as [m|]; [|discriminate]. cbn [bind].
  destruct (PyFloat.ltb m t); [discriminate|].
  destruct (index m scores) as [i|]; [|discriminate]. cbn [bind].
  destruct (corner_ints W H xc yc wd ht) as [corners|] eqn:Ec; [|discriminate].
  apply corner_ints_value in Ec. subst corners. cbn [bind].
  fold (pixel_box W H xc yc wd ht).
  destruct (pixel_box W H xc yc wd ht) as [[[x y] w] h].
  intro E. injection E as <-. reflexivity.
Qed.

(** With coordinates in range, what a row is decoded to does not depend on
    the threshold, which only decides whether it is kept; a row raises under
    every threshold or under none. *)
Lemma decode_pred_shape (W H : Z) (pred : RawPrediction) :
  Z.abs W <= RANGE -> Z.abs H <= RANGE -> in_float_range pred ->
  (~ well_formed pred /\ forall t, decode_pred W H t pred = raise)
  \/ (well_formed pred /\
      exists d,
        forall t, decode_pred W H t pred =
                  ret (if PyFloat.ltb (det_conf d) t then None else Some d)).
Proof.
  intros HW HH Hr.
  destruct (le_lt_dec 5 (length pred)) as [Hwf|Hbad].
  - right. split; [exact Hwf|].
    destruct pred as [|xc [|yc [|wd [|ht [|s ss]]]]]; simpl in Hwf; try lia.
    destruct (py_max (s :: ss)) as [m|] eqn:Em; [|discriminate].
    destruct (@index_first m (s :: ss) (proj1 (py_max_is_max _ _ Em)))
      as [i [Ei _]].
    destruct (clamp_box W H (corner_coords W H xc yc wd ht))
      as [[[x y] w] h] eqn:Eb.
    exists (mkDet x y w h m i).
    intro t. unfold decode_pred. cbn [firstn skipn unpack4 bind ret].
    rewrite Em. cbn [bind det_conf].
    destruct (PyFloat.ltb m t); [reflexivity|].
    rewrite Ei. cbn [bind].
    rewrite (corner_ints_in_range W H xc yc wd ht HW HH)
      by (unfold in_float_range in *; cbn [firstn] in *; exact Hr).
    cbn [bind ret]. rewrite Eb. reflexivity.
  - left. split; [unfold well_formed; lia|].
    intro t. apply decode_pred_malformed. unfold well_formed. lia.
Qed.

(** A property of every decoded row holds of everything the loop appends. *)
Lemma decode_loop_Forall (P : Detection -> Prop) (W H : Z) (t : Q)
    (predictions : list RawPrediction) (detections : list Detection) :
  Forall (fun pred => forall d, decode_pred W H t pred = ret (Some d) -> P d)
         predictions ->
  Forall P detections ->
  Forall P (fst (decode_loop W H t predictions detections)).
Proof.
  intro Hrows. revert detections.
  induction Hrows as [|pred rest Hp _ IH]; intros detections Hacc;
    cbn [decode_loop].
  - exact Hacc.
  - destruct (decode_pred W H t pred) as [[d|]|].
    + apply IH. apply Forall_app. split; [exact Hacc|].
      constructor; [apply Hp; reflexivity | constructor].
    + apply IH, Hacc.
    + exact Hacc.
Qed.

Lemma decode_loop_length (W H : Z) (t : Q)
    (predictions : list RawPrediction) (detections : list Detection) :
  (length (fst (decode_loop W H t predictions detections))
   <= length detections + length predictions)%nat.
Proof.
  revert detections.
  induction predictions as [|pred rest IH]; intro detections; cbn [decode_loop].
  - cbn. lia.
  - destruct (decode_pred W H t pred) as [[d|]|].
    + specialize (IH (detections ++ [d])). rewrite length_app in IH.
      cbn [length] in *. lia.
    + specialize (IH detections). cbn [length]. lia.
    + cbn. lia.
Qed.

(** The invariant of a detection: at or above the threshold, inside the
    closed frame. *)
Lemma decode_pred_invariant (W H : Z) (t : Q) (pred : RawPrediction)
    (d : Detection) :
  0 < W -> 0 < H ->
  decode_pred W H t pred = ret (Some d) ->
  (t <= det_conf d)%Q
  /\ 0 <= det_x d <= W /\ 0 <= det_y d <= H
  /\ 0 <= det_x d + det_w d <= W /\ 0 <= det_y d + det_h d <= H.
Proof.
  intros HW HH E.
  destruct (decode_pred_emits W H t pred d E) as [Hc [_ [corners Hb]]].
  split; [exact Hc|].
  destruct corners as [[[x1 y1] x2] y2].
  pose proof (clamp_box_bounds W H x1 y1 x2 y2 HW HH) as Hbd.
  rewrite <- Hb in Hbd. intuition lia.
Qed.

(** X12. Whatever the tensor (rows of any length, boxes of any sign), and
    for positive image dimensions, [postprocess] returns, and every
    detection it returns has a confidence at or above the confidence
    threshold and both corners in the closed frame: [x] and [x + w] lie in
    [[0, img_width]], [y] and [y + h] in [[0, img_height]]; there are at most
    as many detections as rows. *)
Theorem postprocess_invariants (W H : Z) (t u : Q)
    (outputs : list (list RawPrediction)) :
  0 < W -> 0 < H ->
  exists keep,
    postprocess W H outputs t u = ret keep
    /\ Forall (fun d => (t <= det_conf d)%Q
                        /\ 0 <= det_x d <= W /\ 0 <= det_y d <= H
                        /\ 0 <= det_x d + det_w d <= W
                        /\ 0 <= det_y d + det_h d <= H) keep
    /\ (length keep <= length (hd [] outputs))%nat.
Proof.
  intros HW HH. unfold postprocess.
  destruct (nms_loop_post u (sort_by_conf (decode W H t outputs)))
    as [keep [E Hpost]].
  rewrite <- nms_unfold in E.
  exists keep. split; [exact E|].
  assert (Hincl : incl keep (decode W H t outputs)).
  { intros x Hx. eapply Permutation_in; [apply sort_by_conf_perm|].
    apply (post_incl _ _ _ Hpost), Hx. }
  split.
  - apply Forall_forall. intros d Hd. apply Hincl in Hd.
    revert d Hd. apply Forall_forall.
    unfold decode. destruct outputs as [|predictions others]; [constructor|].
    apply decode_loop_Forall; [|constructor].
    apply Forall_forall. intros pred _ d.
    apply decode_pred_invariant; assumption.
  - destruct (@nms_loop_rel u (fun l out => (length out <= length l)%nat))
      with (detections := sort_by_conf (decode W H t outputs))
           (keep := @nil Detection) as [keep' [E' Hlen]].
    + cbn. lia.
    + intros best rest out Hout. cbn [length].
      pose proof (filter_length_le (passes u best) rest). lia.
    + rewrite <- nms_unfold in E'.
      assert (keep' = keep) by (unfold ret in *; cbn in *; congruence).
      subst keep'.
      rewrite (Permutation_length (sort_by_conf_perm _)) in Hlen.
      eapply Nat.le_trans; [exact Hlen|].
      unfold decode. destruct outputs as [|predictions others]; [cbn; lia|].
      apply (decode_loop_length W H t predictions []).
Qed.

Lemma postprocess_invariants_witness :
  exists keep,
    postprocess 320 240
      [[[1 # 2; 1 # 2; - 1 # 5; 3; 9 # 10; 1 # 10]; [1 # 2]]%Q] (1 # 4) (9 # 20)
    = ret keep
    /\ Forall (fun d => ((1 # 4) <= det_conf d)%Q
                        /\ 0 <= det_x d <= 320 /\ 0 <= det_y d <= 240
                        /\ 0 <= det_x d + det_w d <= 320
                        /\ 0 <= det_y d + det_h d <= 240) keep
    /\ (length keep
        <= length (hd [] [[[1 # 2; 1 # 2; - 1 # 5; 3; 9 # 10; 1 # 10];
                           [1 # 2]]%Q]))%nat.
Proof. apply postprocess_invariants; reflexivity. Defined.

(** Every decoded class is a position among the class scores of its row. *)
Lemma decode_classes_bounded (W H : Z) (t : Q) (C : nat)
    (outputs : list (list RawPrediction)) :
  Forall (fun pred => (length pred <= 4 + C)%nat) (hd [] outputs) ->
  Forall (fun d => (det_cls d < C)%nat) (decode W H t outputs).
Proof.
  intro Hrows. unfold decode.
  destruct outputs as [|predictions others]; [constructor|]. cbn [hd] in Hrows.
  apply decode_loop_Forall; [|constructor].
  eapply Forall_impl; [|exact Hrows].
  intros pred Hlen d E.
  destruct (decode_pred_emits W H t pred d E) as [_ [Hc _]].
  cbv beta in Hlen. lia.
Qed.

Lemma postprocess_incl (W H : Z) (t u : Q) (outputs : list (list RawPrediction)) :
  exists keep,
    postprocess W H outputs t u = ret keep
    /\ incl keep (decode W H t outputs).
Proof.
  unfold postprocess.
  destruct (nms_loop_post u (sort_by_conf (decode W H t outputs)))
    as [keep [E Hpost]].
  rewrite <- nms_unfold in E. exists keep. split; [exact E|].
  intros x Hx. eapply Permutation_in; [apply sort_by_conf_perm|].
  apply (post_incl _ _ _ Hpost), Hx.
Qed.

(** X13. When no row of the tensor has more than [4 + C] entries, every
    detection [postprocess] returns has a class below [C]: the class of a
    detection is a position among the class scores of its row. *)
Theorem postprocess_classes_bounded (W H : Z) (t u : Q) (C : nat)
    (outputs : list (list RawPrediction)) :
  Forall (fun pred => (length pred <= 4 + C)%nat) (hd [] outputs) ->
  exists keep,
    postprocess W H outputs t u = ret keep
    /\ Forall (fun d => (det_cls d < C)%nat) keep.
Proof.
  intro Hrows.
  destruct (postprocess_incl W H t u outputs) as [keep [E Hincl]].
  exists keep. split; [exact E|].
  apply Forall_forall. intros d Hd. apply Hincl in Hd.
  revert d Hd. apply Forall_forall.
  apply decode_classes_bounded, Hrows.
Qed.

Lemma postprocess_classes_bounded_witness :
  exists keep,
    postprocess 320 320
      [[[1 # 2; 1 # 2; 1 # 5; 1 # 5; 1 # 10; 9 # 10; 3 # 10];
        [1 # 4; 1 # 4; 1 # 5; 1 # 5; 3 # 10; 3 # 10; 1 # 2]]%Q]
      (1 # 4) (9 # 20)
    = ret keep
    /\ Forall (fun d => (det_cls d < 3)%nat) keep.
Proof.
  apply postprocess_classes_bounded.
  repeat constructor; simpl; lia.
Defined.

(** The two loops, under two thresholds, run in step. *)
Lemma decode_loop_threshold (W H : Z) (t1 t2 : Q)
    (predictions : list RawPrediction) (acc1 acc2 : list Detection) :
  Z.abs W <= RANGE -> Z.abs H <= RANGE ->
  Forall in_float_range predictions ->
  (t1 <= t2)%Q ->
  acc2 = filter (fun d => negb (PyFloat.ltb (det_conf d) t2)) acc1 ->
  fst (decode_loop W H t2 predictions acc2) =
  filter (fun d => negb (PyFloat.ltb (det_conf d) t2))
         (fst (decode_loop W H t1 predictions acc1)).
Proof.
  intros HW HH Hr Ht. revert acc1 acc2.
  induction Hr as [|pred rest Hp _ IH]; intros acc1 acc2 Hacc;
    cbn [decode_loop].
  - exact Hacc.
  - destruct (decode_pred_shape W H pred HW HH Hp) as [[_ Hraise]|[_ [d Hd]]].
    + rewrite !Hraise. exact Hacc.
    + rewrite !Hd. unfold ret.
      destruct (PyFloat.ltb (det_conf d) t1) eqn:E1.
      * assert (E2 : PyFloat.ltb (det_conf d) t2 = true).
        { apply ltb_lt. apply ltb_lt in E1. eapply Qlt_le_trans; eassumption. }
        rewrite E2. apply IH, Hacc.
      * destruct (PyFloat.ltb (det_conf d) t2) eqn:E2.
        { apply IH. rewrite filter_app. cbn [filter]. rewrite E2. cbn.
          rewrite app_nil_r. exact Hacc. }
        { apply IH. rewrite filter_app. cbn [filter]. rewrite E2. cbn.
          rewrite Hacc. reflexivity. }
Qed.

(** X14. On a tensor whose coordinates, like the image dimensions, are of a
    magnitude that float arithmetic holds (up to [2^500]), raising the
    confidence threshold only removes detections: what the decoder yields
    under the threshold [t2] is what it yields under a lower threshold [t1],
    without the detections below [t2].  (Rows may be too short: they stop
    the decoding under both thresholds alike.) *)
Theorem decode_threshold_monotone (W H : Z) (t1 t2 : Q)
    (outputs : list (list RawPrediction)) :
  Z.abs W <= RANGE -> Z.abs H <= RANGE ->
  Forall in_float_range (hd [] outputs) ->
  (t1 <= t2)%Q ->
  decode W H t2 outputs =
  filter (fun d => negb (PyFloat.ltb (det_conf d) t2)) (decode W H t1 outputs).
Proof.
  intros HW HH Hr Ht. unfold decode.
  destruct outputs as [|predictions others]; [reflexivity|].
  apply decode_loop_threshold; try assumption. reflexivity.
Qed.

Lemma decode_threshold_monotone_witness :
  decode 320 320 (1 # 2)
    [[[1 # 2; 1 # 2; 1 # 5; 1 # 5; 9 # 10; 1 # 10];
      [1 # 4; 1 # 4; 1 # 5; 1 # 5; 3 # 10; 2 # 5]]%Q]
  = filter (fun d => negb (PyFloat.ltb (det_conf d) (1 # 2)))
      (decode 320 320 (1 # 4)
         [[[1 # 2; 1 # 2; 1 # 5; 1 # 5; 9 # 10; 1 # 10];
           [1 # 4; 1 # 4; 1 # 5; 1 # 5; 3 # 10; 2 # 5]]%Q]).
Proof.
  apply decode_threshold_monotone.
  - vm_compute. discriminate.
  - vm_compute. discriminate.
  - cbn [hd]. all_in_range.
  - discriminate.
Defined.

(** X15. Decoding is local to the rows: after rows that are well-formed,
    with coordinates (and image dimensions) of a magnitude that float
    arithmetic holds (up to [2^500]), the rows that follow are decoded as
    they would be on their own. *)
Theorem decode_app (W H : Z) (t : Q) (first second : list RawPrediction)
    (others : list (list RawPrediction)) :
  Z.abs W <= RANGE -> Z.abs H <= RANGE ->
  Forall well_formed first -> Forall in_float_range first ->
  decode W H t ((first ++ second) :: others) =
  decode W H t (first :: others) ++ decode W H t (second :: others).
Proof.
  intros HW HH Hwf Hr. unfold decode.
  generalize (@nil Detection) at 1 2. revert Hr.
  induction Hwf as [|pred rest Hp _ IH]; intros Hr acc; cbn [app decode_loop].
  - apply (f_equal fst (decode_loop_acc W H t second acc)).
  - inversion Hr as [|? ? Hpr Hrest]; subst.
    destruct (decode_pred_well_formed W H t pred HW HH Hp Hpr)
      as [m [_ [[_ E]|[_ [d [E _]]]]]]; rewrite E; unfold ret; cbv iota;
      apply IH, Hrest.
Qed.

Lemma decode_app_witness :
  decode 320 320 (1 # 2)
    [([[1 # 2; 1 # 2; 1 # 5; 1 # 5; 9 # 10; 1 # 10]] ++
      [[1 # 4; 1 # 4; 1 # 5; 1 # 5; 1 # 10; 4 # 5]; [1 # 2]])%Q]
  = decode 320 320 (1 # 2) [[[1 # 2; 1 # 2; 1 # 5; 1 # 5; 9 # 10; 1 # 10]]%Q]
    ++ decode 320 320 (1 # 2)
         [[[1 # 4; 1 # 4; 1 # 5; 1 # 5; 1 # 10; 4 # 5]; [1 # 2]]%Q].
Proof.
  apply decode_app.
  - vm_compute. discriminate.
  - vm_compute. discriminate.
  - all_well_formed.
  - all_in_range.
Defined.

(** ** [draw_detections] *)

(** The palette is indexed modulo its length: the lookup never fails. *)
Lemma colors_lookup (n : nat) :
  exists color, getitem COLORS (n mod length COLORS) = Some color.
Proof.
  unfold getitem.
  destruct (nth_error COLORS (n mod length COLORS)) as [c|] eqn:E.
  - exists c. reflexivity.
  - apply nth_error_None in E.
    pose proof (Nat.mod_upper_bound n (length COLORS)) as Hb.
    cbn [COLORS length] in *. lia.
Qed.

Lemma names_lookup (names : list String.string) (n : nat) :
  (n < length names)%nat -> exists name, getitem names n = Some name.
Proof.
  intro H. unfold getitem.
  destruct (nth_error names n) as [name|] eqn:E.
  - exists name. reflexivity.
  - apply nth_error_None in E. lia.
Qed.

Lemma rectangles_app (l1 l2 : list DrawCmd) :
  rectangles (l1 ++ l2) = rectangles l1 ++ rectangles l2.
Proof. unfold rectangles. apply flat_map_app. Qed.

(** Drawing when every class has a name. *)
Lemma draw_detections_named (names : list String.string)
    (detections : list Detection) (img : list DrawCmd) :
  Forall (fun d => (det_cls d < length names)%nat) detections ->
  exists drawn,
    draw_detections names img detections = (img ++ drawn, false)
    /\ length drawn = (2 * length detections)%nat
    /\ rectangles drawn = map box_of detections.
Proof.
  intro H. revert img.
  induction H as [|d rest Hd _ IH]; intro img; cbn [draw_detections].
  - exists []. rewrite app_nil_r. auto.
  - destruct (colors_lookup (det_cls d)) as [color Ec]. rewrite Ec.
    destruct (names_lookup names (det_cls d) Hd) as [name En]. rewrite En.
    destruct (IH ((img ++ [DrawRectangle (det_x d) (det_y d) (det_w d) (det_h d) color])
                  ++ [DrawString (det_x d) (det_y d - 15)
                        (ClassLabel name (det_conf d)) color]))
      as [drawn [E [Hlen Hrect]]].
    eexists. rewrite E, <- !app_assoc. split; [reflexivity|].
    cbn [app length]. split; [lia|].
    change (DrawRectangle (det_x d) (det_y d) (det_w d) (det_h d) color
              :: DrawString (det_x d) (det_y d - 15)
                   (ClassLabel name (det_conf d)) color :: drawn)
      with ([DrawRectangle (det_x d) (det_y d) (det_w d) (det_h d) color;
             DrawString (det_x d) (det_y d - 15)
               (ClassLabel name (det_conf d)) color] ++ drawn).
    rewrite rectangles_app, Hrect. reflexivity.
Qed.

(** X16. [draw_detections] raises exactly when the class of some detection
    has no name in [CLASS_NAMES].  When it does not raise, what was on the
    image stays, two shapes are added for every detection, and the
    rectangles added are the boxes of the detections, in their order. *)
Theorem draw_detections_raises_iff (names : list String.string)
    (detections : list Detection) (img : list DrawCmd) :
  (snd (draw_detections names img detections) = false <->
   Forall (fun d => (det_cls d < length names)%nat) detections)
  /\ (snd (draw_detections names img detections) = false ->
      exists drawn,
        fst (draw_detections names img detections) = img ++ drawn
        /\ length drawn = (2 * length detections)%nat
        /\ rectangles drawn = map box_of detections).
Proof.
  assert (Hok : Forall (fun d => (det_cls d < length names)%nat) detections ->
                snd (draw_detections names img detections) = false).
  { intro H. destruct (draw_detections_named names detections img H)
      as [drawn [E _]]. rewrite E. reflexivity. }
  assert (Hback : forall img',
             snd (draw_detections names img' detections) = false ->
             Forall (fun d => (det_cls d < length names)%nat) detections).
  { clear Hok. induction detections as [|d rest IH]; intros img' Hs.
    - constructor.
    - cbn [draw_detections] in Hs.
      destruct (colors_lookup (det_cls d)) as [color Ec]. rewrite Ec in Hs.
      destruct (getitem names (det_cls d)) as [name|] eqn:En;
        [|discriminate Hs].
      constructor; [|eapply IH; exact Hs].
      apply nth_error_Some. unfold getitem in En. congruence. }
  split; [split; [apply Hback | exact Hok]|].
  intro Hs. destruct (draw_detections_named names detections img (Hback img Hs))
    as [drawn [E H]].
  exists drawn. rewrite E. split; [reflexivity | exact H].
Qed.

(** X17. At the first detection whose class has no name the rectangle is
    drawn, the label is not, and the drawing stops: the image is what the
    detections before it give, with that one rectangle added. *)
Theorem draw_detections_stops (names : list String.string)
    (before : list Detection) (d : Detection) (after : list Detection)
    (img : list DrawCmd) :
  Forall (fun e => (det_cls e < length names)%nat) before ->
  (length names <= det_cls d)%nat ->
  exists color,
    getitem COLORS (det_cls d mod 8) = Some color
    /\ draw_detections names img (before ++ d :: after) =
       (fst (draw_detections names img before)
          ++ [DrawRectangle (det_x d) (det_y d) (det_w d) (det_h d) color],
        true).
Proof.
  intros Hb Hd.
  destruct (colors_lookup (det_cls d)) as [color Ec].
  exists color. split; [exact Ec|].
  revert img. induction Hb as [|e rest He _ IH]; intro img;
    cbn [app draw_detections].
  - rewrite Ec.
    assert (En : getitem names (det_cls d) = None)
      by (apply nth_error_None; exact Hd).
    rewrite En. reflexivity.
  - destruct (colors_lookup (det_cls e)) as [c Ece]. rewrite Ece.
    destruct (names_lookup names (det_cls e) He) as [name En]. rewrite En.
    apply IH.
Qed.

Section DrawStopsExample.
Import String.

Lemma draw_detections_stops_witness :
  exists color,
    getitem COLORS (det_cls (mkDet 5 5 10 10 (1 # 2) 9) mod 8) = Some color
    /\ draw_detections ["ball"%string; "victim"%string] []
         ([mkDet 0 20 10 10 (9 # 10) 1] ++
          mkDet 5 5 10 10 (1 # 2) 9 :: [mkDet 7 7 3 3 (1 # 3) 0]) =
       (fst (draw_detections ["ball"%string; "victim"%string] []
               [mkDet 0 20 10 10 (9 # 10) 1])
          ++ [DrawRectangle 5 5 10 10 color],
        true).
Proof.
  apply (draw_detections_stops ["ball"%string; "victim"%string]
           [mkDet 0 20 10 10 (9 # 10) 1] (mkDet 5 5 10 10 (1 # 2) 9)
           [mkDet 7 7 3 3 (1 # 3) 0] []).
  - repeat constructor.
  - simpl. lia.
Defined.

End DrawStopsExample.

(** X18. Decoding, suppression and drawing compose: when no row of the
    tensor has more entries than four plus the number of class names,
    [postprocess] returns and [draw_detections] draws all it returns
    without raising. *)
Theorem postprocess_then_draw (W H : Z) (t u : Q) (names : list String.string)
    (outputs : list (list RawPrediction)) (img : list DrawCmd) :
  Forall (fun pred => (length pred <= 4 + length names)%nat) (hd [] outputs) ->
  exists keep drawn,
    postprocess W H outputs t u = ret keep
    /\ draw_detections names img keep = (img ++ drawn, false)
    /\ rectangles drawn = map box_of keep.
Proof.
  intro Hrows.
  destruct (postprocess_incl W H t u outputs) as [keep [E Hincl]].
  assert (Hcls : Forall (fun d => (det_cls d < length names)%nat) keep).
  { apply Forall_forall. intros d Hd. apply Hincl in Hd.
    revert d Hd. apply Forall_forall.
    apply decode_classes_bounded, Hrows. }
  destruct (draw_detections_named names keep img Hcls) as [drawn [Ed [_ Hr]]].
  exists keep, drawn. auto.
Qed.

Section DrawExample.
Import String.

Lemma postprocess_then_draw_witness :
  exists keep drawn,
    postprocess 320 320
      [[[1 # 2; 1 # 2; 1 # 5; 1 # 5; 1 # 10; 9 # 10];
        [1 # 4; 1 # 4; 1 # 5; 1 # 5; 3 # 5; 3 # 10]]%Q]
      (1 # 4) (9 # 20) = ret keep
    /\ draw_detections ["ball"%string; "victim"%string] [] keep
       = ([] ++ drawn, false)
    /\ rectangles drawn = map box_of keep.
Proof.
  apply postprocess_then_draw.
  repeat constructor; simpl; lia.
Defined.

End DrawExample.

(** ** [update_fps]: no frame is lost *)

Lemma update_fps_cases (self : Tracker) (t : Z) :
  ((1000 <=? Ticks.ticks_diff t (last_time self)) = true
   /\ update_fps self t = mkTracker 0 (frame_count self + 1) t)
  \/ ((1000 <=? Ticks.ticks_diff t (last_time self)) = false
      /\ update_fps self t =
         mkTracker (frame_count self + 1) (fps self) (last_time self)).
Proof.
  unfold update_fps.
  destruct (1000 <=? Ticks.ticks_diff t (last_time self)); auto.
Qed.

Lemma fps_conservation (self : Tracker) (times : list Z) :
  0 <= frame_count self -> 0 <= fps self ->
  sumZ (fps_reports self times)
    + frame_count (fold_left update_fps times self)
  = frame_count self + Z.of_nat (length times)
  /\ Forall (fun f => 1 <= f) (fps_reports self times)
  /\ 0 <= frame_count (fold_left update_fps times self)
  /\ 0 <= fps (fold_left update_fps times self).
Proof.
  revert self. induction times as [|t rest IH]; intros self Hc Hf.
  - cbn. repeat split; try lia. constructor.
  - cbn [fold_left fps_reports length].
    destruct (update_fps_cases self t) as [[Eb E]|[Eb E]]; rewrite Eb.
    + destruct (IH (update_fps self t)) as [Hsum [Hall [H1 H2]]];
        try (rewrite E; cbn; lia).
      cbn [sumZ fold_right]. fold (sumZ (fps_reports (update_fps self t) rest)).
      repeat split; try assumption.
      * rewrite E in Hsum |- *. cbn [frame_count fps] in *. lia.
      * constructor; [rewrite E; cbn; lia | exact Hall].
    + destruct (IH (update_fps self t)) as [Hsum [Hall [H1 H2]]];
        try (rewrite E; cbn; lia).
      repeat split; try assumption.
      rewrite E in Hsum |- *. cbn [frame_count] in *. lia.
Qed.

(** X19. From the state [__init__] leaves, every call of [update_fps] is
    counted once: the values reported so far and the running counter add up
    to the number of calls; every value reported is at least 1, and neither
    the counter nor the reported FPS is ever negative. *)
Theorem fps_counts_every_frame (t0 : Z) (times : list Z) :
  sumZ (fps_reports (init_tracker t0) times)
    + frame_count (fold_left update_fps times (init_tracker t0))
  = Z.of_nat (length times)
  /\ Forall (fun f => 1 <= f) (fps_reports (init_tracker t0) times)
  /\ 0 <= frame_count (fold_left update_fps times (init_tracker t0))
  /\ 0 <= fps (fold_left update_fps times (init_tracker t0)).
Proof.
  apply (fps_conservation (init_tracker t0) times); cbn; lia.
Qed.

(** ** The loop of [run] *)

(** X20. A capture that fails leaves no trace: the loop behaves as if the
    iteration had not taken place; neither counter nor events change. *)
Theorem run_ignores_failed_captures (self : Tracker) (steps : list Step) :
  run self (filter (fun s => is_frame s || is_stop s) steps) = run self steps.
Proof.
  revert self. induction steps as [|s steps IH]; intro self; [reflexivity|].
  destruct s as [|now| |]; cbn [filter is_frame is_stop orb run].
  - apply IH.
  - rewrite IH. reflexivity.
  - reflexivity.
  - reflexivity.
Qed.

Lemma run_before_stop (self : Tracker) (steps : list Step) :
  snd (run self steps) =
  snd (run self (before_stop steps))
    ++ (if existsb is_stop steps then [CameraDeinit; GcCollect] else [])
  /\ ~ In CameraDeinit (snd (run self (before_stop steps)))
  /\ count_event Display (snd (run self (before_stop steps)))
     = length (filter is_frame (before_stop steps)).
Proof.
  revert self. induction steps as [|s steps IH]; intro self.
  - cbn. auto.
  - destruct s as [|now| |]; cbn [before_stop run existsb is_stop orb filter is_frame].
    + apply IH.
    + destruct (IH (update_fps self now)) as [E [Hno Hcount]].
      destruct (run (update_fps self now) steps) as [f1 evs1].
      destruct (run (update_fps self now) (before_stop steps)) as [f2 evs2].
      cbn [snd] in *. subst evs1.
      split; [|split].
      * cbn [snd app]. rewrite app_assoc. reflexivity.
      * intros [H|H]; [discriminate|].
        apply in_app_or in H. destruct H as [H|H]; [|exact (Hno H)].
        destruct (frame_count (update_fps self now) mod 10 =? 0);
          [destruct H as [H|[]]; discriminate | destruct H].
      * cbn [length]. rewrite <- Hcount. unfold count_event.
        cbn [app filter length]. rewrite filter_app, length_app.
        destruct (frame_count (update_fps self now) mod 10 =? 0); reflexivity.
    + cbn. auto.
    + cbn. auto.
Qed.

(** X21. However the loop ends, the camera is released: when a step stops
    the loop (an interrupt or a failed inference) the events are those of the
    steps before it, followed by [camera_deinit] and one last collection, and
    the steps after it are not run; while nothing stops the loop the camera
    is not released.  One frame is displayed for every frame step run. *)
Theorem run_releases_camera (self : Tracker) (steps : list Step) :
  snd (run self steps) =
  snd (run self (before_stop steps))
    ++ (if existsb is_stop steps then [CameraDeinit; GcCollect] else [])
  /\ ~ In CameraDeinit (snd (run self (before_stop steps)))
  /\ count_event Display (snd (run self steps))
     = length (filter is_frame (before_stop steps)).
Proof.
  destruct (run_before_stop self steps) as [E [Hno Hcount]].
  split; [exact E|]. split; [exact Hno|].
  rewrite E. unfold count_event in *. rewrite filter_app, length_app, Hcount.
  destruct (existsb is_stop steps); cbn; lia.
Qed.

Lemma run_slow (times : list Z) (t0 f : Z) :
  slow t0 times ->
  snd (run (mkTracker 0 f t0) (map Frame times))
  = flat_map (fun _ => [Display; GcCollect]) times
  /\ fps_reports (mkTracker 0 f t0) times = map (fun _ => 1) times.
Proof.
  revert t0 f. induction times as [|t rest IH]; intros t0 f Hs.
  - split; reflexivity.
  - destruct Hs as [Ht Hrest].
    cbn [map run fps_reports last_time flat_map].
    rewrite (update_fps_rollover t0 0 f t Ht).
    destruct (Z.leb_spec 1000 (Ticks.ticks_diff t t0)); [|lia].
    destruct (IH t (0 + 1) Hrest) as [E1 E2].
    destruct (run (mkTracker 0 (0 + 1) t) (map Frame rest)) as [final evs].
    cbn [snd frame_count fps] in *. subst evs. rewrite E2.
    split; reflexivity.
Qed.

(** X22. At one frame a second or slower (every frame 1000 ms or more after
    the one before), a collection is requested after every frame, and every
    reported FPS is 1. *)
Theorem run_slow_frames (t0 : Z) (times : list Z) :
  slow t0 times ->
  snd (run (init_tracker t0) (map Frame times))
  = flat_map (fun _ => [Display; GcCollect]) times
  /\ fps_reports (init_tracker t0) times = map (fun _ => 1) times.
Proof. apply run_slow. Qed.

Lemma run_slow_frames_witness :
  snd (run (init_tracker 0) (map Frame [1500; 2500; 4000]))
  = flat_map (fun _ => [Display; GcCollect]) [1500; 2500; 4000]
  /\ fps_reports (init_tracker 0) [1500; 2500; 4000]
     = map (fun _ => 1) [1500; 2500; 4000].
Proof.
  apply run_slow_frames.
  cbn [slow]. repeat split; vm_compute; discriminate.
Defined.

(** Inside one FPS window the counter only grows: the collections are
    as many as the multiples of 10 it passes. *)
Lemma run_in_window_count (t0 : Z) (steps : list Step) (c f : Z) (since : nat) :
  Z.of_nat since = c mod 10 ->
  Forall (in_window t0) steps ->
  Z.of_nat (count_event GcCollect (snd (run (mkTracker c f t0) steps)))
  = (c + Z.of_nat (length (filter is_frame steps))) / 10 - c / 10
  /\ Z.of_nat (pending since (snd (run (mkTracker c f t0) steps)))
     = (c + Z.of_nat (length (filter is_frame steps))) mod 10.
Proof.
  intros Hinv Hwin. revert c since Hinv.
  induction Hwin as [|s steps Hs _ IH]; intros c since Hinv;
    cbn [run filter is_frame].
  - cbn [length snd pending]. unfold count_event. cbn [filter length].
    rewrite Z.add_0_r. split; [lia | exact Hinv].
  - destruct s as [|now| |]; cbn [in_window] in Hs; try contradiction;
      cbn [run filter is_frame].
    + apply IH, Hinv.
    + rewrite (update_fps_inside t0 c f now Hs).
      cbn [length]. rewrite Nat2Z.inj_succ.
      replace (c + Z.succ (Z.of_nat (length (filter is_frame steps))))
        with (c + 1 + Z.of_nat (length (filter is_frame steps))) by lia.
      destruct (succ_mod_10 c) as [[H0 H9]|[Hn Hs1]].
      * destruct (IH (c + 1) 0%nat) as [IHc IHp]; [rewrite H0; reflexivity|].
        destruct (run (mkTracker (c + 1) f t0) steps) as [final evs].
        cbn [snd frame_count] in *. rewrite H0. cbn [Z.eqb app pending].
        unfold count_event in *. cbn [filter length].
        rewrite Nat2Z.inj_succ, IHc. split; [|exact IHp].
        assert ((c + 1) / 10 = c / 10 + 1)
          by (clear -H0 H9; Z.div_mod_to_equations; lia).
        lia.
      * destruct (IH (c + 1) (S since)) as [IHc IHp];
          [rewrite Nat2Z.inj_succ, Hs1; lia|].
        destruct (run (mkTracker (c + 1) f t0) steps) as [final evs].
        cbn [snd frame_count] in *.
        destruct (Z.eqb_spec ((c + 1) mod 10) 0) as [E|_]; [contradiction|].
        cbn [app pending]. unfold count_event in *. cbn [filter].
        rewrite IHc. split; [|exact IHp].
        assert ((c + 1) / 10 = c / 10)
          by (clear -Hn Hs1; Z.div_mod_to_equations; lia).
        lia.
Qed.

(** X24. While the frames fall inside one FPS window (less than 1000 ms
    after the last reset, failed captures in between or not), a collection
    is requested after every tenth frame and after no other: the requests
    are exactly 10 frames apart, after [n] frames there have been [n / 10]
    of them, and [n mod 10] frames have been processed since the last. *)
Theorem gc_exactly_10_in_window (t0 : Z) (steps : list Step) :
  Forall (in_window t0) steps ->
  Forall (eq 10%nat) (gc_gaps 0 (snd (run (init_tracker t0) steps)))
  /\ Z.of_nat (count_event GcCollect (snd (run (init_tracker t0) steps)))
     = Z.of_nat (length (filter is_frame steps)) / 10
  /\ Z.of_nat (pending 0 (snd (run (init_tracker t0) steps)))
     = Z.of_nat (length (filter is_frame steps)) mod 10.
Proof.
  intro H. split; [apply run_gaps_eq; [reflexivity | exact H]|].
  destruct (run_in_window_count t0 steps 0 0 0 eq_refl H) as [Hc Hp].
  unfold init_tracker. rewrite Hc, Hp, Z.add_0_l.
  change (0 / 10) with 0. split; [apply Z.sub_0_r | reflexivity].
Qed.

Lemma gc_exactly_10_in_window_witness :
  Forall (eq 10%nat)
    (gc_gaps 0
       (snd (run (init_tracker 0)
               (map (fun k => Frame (30 * Z.of_nat k)) (seq 1 25)))))
  /\ Z.of_nat
       (count_event GcCollect
          (snd (run (init_tracker 0)
                  (map (fun k => Frame (30 * Z.of_nat k)) (seq 1 25)))))
     = Z.of_nat
         (length (filter is_frame
                    (map (fun k => Frame (30 * Z.of_nat k)) (seq 1 25)))) / 10
  /\ Z.of_nat
       (pending 0
          (snd (run (init_tracker 0)
                  (map (fun k => Frame (30 * Z.of_nat k)) (seq 1 25)))))
     = Z.of_nat
         (length (filter is_frame
                    (map (fun k => Frame (30 * Z.of_nat k)) (seq 1 25)))) mod 10.
Proof.
  apply gc_exactly_10_in_window.
  cbn [map seq]. repeat (constructor; [vm_compute; reflexivity|]). constructor.
Defined.

(** ** [preprocess] *)

Section Preprocess.

(** The resize of the platform, known by its contract only: the image it
    returns has the size asked for. *)
Variable resize : Image -> Z -> Z -> Image.
Hypothesis resize_size :
  forall img w h, width (resize img w h) = w /\ height (resize img w h) = h.

(** X23. [preprocess] returns an image of the size of the model input; an
    image that has this size already is returned as it is, without a
    resize, so that preprocessing twice is preprocessing once. *)
Theorem preprocess_model_size (W H : Z) (img : Image) :
  width (preprocess W H resize img) = W
  /\ height (preprocess W H resize img) = H
  /\ (width img = W -> height img = H -> preprocess W H resize img = img)
  /\ preprocess W H resize (preprocess W H resize img)
     = preprocess W H resize img.
Proof.
  assert (Hsame : forall i, width i = W -> height i = H ->
                            preprocess W H resize i = i).
  { intros i Hw Hh. unfold preprocess.
    rewrite Hw, Hh, !Z.eqb_refl. reflexivity. }
  assert (Hsize : width (preprocess W H resize img) = W
                  /\ height (preprocess W H resize img) = H).
  { unfold preprocess.
    destruct (Z.eqb_spec (width img) W) as [Hw|Hw];
      destruct (Z.eqb_spec (height img) H) as [Hh|Hh]; cbn [negb orb];
      auto; apply resize_size. }
  destruct Hsize as [Hw Hh].
  split; [exact Hw|]. split; [exact Hh|]. split; [apply Hsame|].
  apply Hsame; assumption.
Qed.

End Preprocess.

Lemma preprocess_model_size_witness :
  width (preprocess 320 320 (fun img w h => mkImage w h (pixels img))
           (mkImage 640 480 7)) = 320
  /\ height (preprocess 320 320 (fun img w h => mkImage w h (pixels img))
               (mkImage 640 480 7)) = 320
  /\ (width (mkImage 640 480 7) = 320 -> height (mkImage 640 480 7) = 320 ->
      preprocess 320 320 (fun img w h => mkImage w h (pixels img))
        (mkImage 640 480 7) = mkImage 640 480 7)
  /\ preprocess 320 320 (fun img w h => mkImage w h (pixels img))
       (preprocess 320 320 (fun img w h => mkImage w h (pixels img))
          (mkImage 640 480 7))
     = preprocess 320 320 (fun img w h => mkImage w h (pixels img))
         (mkImage 640 480 7).
Proof.
  apply (preprocess_model_size (fun img w h => mkImage w h (pixels img))).
  intros img w h. split; reflexivity.
Defined.
